(** * A multi-room chat relay: the session, room and fan-out engine

    Shallow embedding of [src/server.go].  The Go program keeps four global
    maps ([clients], [rooms], [bannedUsers] and the [Client] objects the first
    two point to) and one channel ([broadcast]).  One goroutine per connection
    runs [handleConnection], one runs [handleBroadcast], one runs
    [adminConsole].

    The embedding is by explicit state passing: every function of the source
    becomes a function from a [State] to the next [State] together with the
    list of effects ([event]s) it performed, in program order.  *)

From stdpp Require Import gmap strings list fin_maps.
From Stdlib Require Import Ascii.

(** ** Strings

    Go strings are byte sequences, as are Rocq's.  The two characters that
    the source writes with escapes are named here. *)

Definition nl : string := String "010"%char EmptyString.
Definition dq : string := String "034"%char EmptyString.
Definition space : ascii := " "%char.

Definition cons_head (c : ascii) (parts : list string) : list string :=
  match parts with
  | [] => [String c EmptyString]
  | p :: ps => String c p :: ps
  end.

(** [strings.Split(s, sep)] for a one-byte separator (the source only ever
    passes [" "]): every occurrence of [sep] ends a part, so the result has
    one more element than [s] has separators, and consecutive separators
    give empty parts. *)
Fixpoint Split (s : string) (sep : ascii) : list string :=
  match s with
  | EmptyString => [EmptyString]
  | String c s' =>
      if Ascii.eqb c sep then EmptyString :: Split s' sep
      else cons_head c (Split s' sep)
  end.

(** [strings.SplitN(s, sep, n)] for [n >= 0]: at most [n] parts, the last
    one being the unsplit remainder; [n = 0] gives no part at all. *)
Fixpoint SplitN (s : string) (sep : ascii) (n : nat) {struct s} : list string :=
  match n with
  | 0 => []
  | 1 => [s]
  | S m =>
      match s with
      | EmptyString => [EmptyString]
      | String c s' =>
          if Ascii.eqb c sep then EmptyString :: SplitN s' sep m
          else cons_head c (SplitN s' sep n)
      end
  end.

(** [strings.HasPrefix]. *)
Definition HasPrefix (s pre : string) : bool := String.prefix pre s.

(** The slice expression [p[1 : len(p)-1]] of [handleBroadcast].  Go panics
    when the bounds are out of order, which is the case for [len(p) < 2]. *)
Definition strip_brackets (p : string) : option string :=
  if Nat.ltb (String.length p) 2 then None
  else Some (String.substring 1 (String.length p - 2) p).

(** A string without the separator byte. *)
Fixpoint no_space (s : string) : bool :=
  match s with
  | EmptyString => true
  | String c s' => negb (Ascii.eqb c space) && no_space s'
  end.

(** ** Data model *)

(** [net.Conn]: an interface value compared by identity.  [fd] stands for
    that identity, [RemoteAddr] for [conn.RemoteAddr().String()]. *)
Record Conn := mkConn { fd : nat; RemoteAddr : string }.

Global Instance Conn_eq_dec : EqDecision Conn.
Proof. solve_decision. Defined.

Global Instance Conn_countable : Countable Conn.
Proof.
  refine (inj_countable' (λ c, (fd c, RemoteAddr c))
                         (λ '(n, a), mkConn n a) _).
  by intros [].
Defined.

(** [*Client]: the address of a [Client] object. *)
Definition ptr := nat.

Record Client := mkClient { conn : Conn; username : string; room : string }.

Record BannedUser := mkBannedUser { Address : string }.

Global Instance Client_eq_dec : EqDecision Client.
Proof. solve_decision. Defined.

Global Instance BannedUser_eq_dec : EqDecision BannedUser.
Proof. solve_decision. Defined.

(** The package-level variables, the [Client] objects, and the part of the
    network the program observes.

    - [clients], [rooms], [bannedUsers]: the three Go maps.  A room's
      [[]*Client] slice is kept as the list of its elements.  This is exact
      as long as no two entries of [rooms] view the same backing array.
      The handlers and the router store a slice under the key they read it
      from; only [kickUser] can store the slice of the room it visits under
      another key, when the session it finds is listed in a room that is
      not its current room (which takes a room with the empty name, or a
      console call that overlaps a handler).  From then on an [append] or
      a removal through one entry can change the cells of the other, and
      this model describes the entry that is written, not the entries that
      share its array.  Statements about the members of rooms other than
      the one written carry the hypothesis that directory and sessions
      agree ([agree] below), under which every slice is stored under its
      own key; see also [fanout] for the second slice header of the
      router's loop, which is modelled.
    - [heap]: the [Client] objects; [handleConnection] allocates one per
      connection and the maps hold pointers to them.
    - [open]: connections accepted and not yet closed by the server.
    - [broken]: connections on which the transport reports an error for a
      reason of its own (the peer is gone). *)
Record State := mkState {
  clients : gmap Conn ptr;
  rooms : gmap string (list ptr);
  bannedUsers : gmap string BannedUser;
  heap : gmap ptr Client;
  open : gset Conn;
  broken : gset Conn
}.

Definition init : State := mkState ∅ ∅ ∅ ∅ ∅ ∅.

Definition with_clients (s : State) (m : gmap Conn ptr) : State :=
  mkState m (rooms s) (bannedUsers s) (heap s) (open s) (broken s).
Definition with_rooms (s : State) (m : gmap string (list ptr)) : State :=
  mkState (clients s) m (bannedUsers s) (heap s) (open s) (broken s).
Definition with_bannedUsers (s : State) (m : gmap string BannedUser) : State :=
  mkState (clients s) (rooms s) m (heap s) (open s) (broken s).
Definition with_heap (s : State) (m : gmap ptr Client) : State :=
  mkState (clients s) (rooms s) (bannedUsers s) m (open s) (broken s).
Definition with_open (s : State) (o : gset Conn) : State :=
  mkState (clients s) (rooms s) (bannedUsers s) (heap s) o (broken s).
Definition with_broken (s : State) (b : gset Conn) : State :=
  mkState (clients s) (rooms s) (bannedUsers s) (heap s) (open s) b.

(** Effects, in the order the program performs them. *)
Inductive event :=
  | Write (c : Conn) (data : string) (ok : bool)  (* c.Write(data); ok = no error *)
  | Send (message : string)                       (* broadcast <- message *)
  | Close (c : Conn).                             (* c.Close() *)

Global Instance event_eq_dec : EqDecision event.
Proof. solve_decision. Defined.

(** The zero [Client]; read only through a pointer that was never allocated,
    which no Go program can hold. *)
Definition zeroClient : Client := mkClient (mkConn 0 "") "" "".

Definition deref (s : State) (p : ptr) : Client := default zeroClient (heap s !! p).

(** [rooms[name]]: a missing key reads as the nil slice. *)
Definition room_slice (s : State) (name : string) : list ptr :=
  default [] (rooms s !! name).

(** [client.room = name]. *)
Definition set_room (p : ptr) (name : string) (s : State) : State :=
  with_heap s (<[p := mkClient (conn (deref s p)) (username (deref s p)) name]> (heap s)).

(** A write succeeds on a connection that is open and not broken. *)
Definition writable (s : State) (c : Conn) : bool :=
  bool_decide (c ∈ open s) && negb (bool_decide (c ∈ broken s)).

Definition conn_Write (s : State) (c : Conn) (data : string) : event :=
  Write c data (writable s c).

(** ** Room membership *)

(** Index of the first element equal to [client] ([c == client] compares
    pointers). *)
Fixpoint index_of (slice : list ptr) (client : ptr) : option nat :=
  match slice with
  | [] => None
  | c :: rest =>
      if decide (c = client) then Some 0 else S <$> index_of rest client
  end.

(** [append(slice[:i], slice[i+1:]...)] as a value. *)
Definition cut (i : nat) (slice : list ptr) : list ptr :=
  take i slice ++ drop (S i) slice.

Definition removeClient (slice : list ptr) (client : ptr) : list ptr :=
  match index_of slice client with
  | Some i => cut i slice
  | None => slice
  end.

(** ** Rendering *)

Definition left_notice (r u : string) : string :=
  "[" +:+ r +:+ "] Notice: " +:+ dq +:+ u +:+ dq +:+ " left the chat room." +:+ nl.
Definition joined_notice (r u : string) : string :=
  "[" +:+ r +:+ "] Notice: " +:+ dq +:+ u +:+ dq +:+ " joined the chat room." +:+ nl.
Definition created_notice (r u : string) : string :=
  "[" +:+ r +:+ "] Notice: " +:+ dq +:+ u +:+ dq +:+ " created and joined the chat room." +:+ nl.

(** [fmt.Sprintf("[%s] %s - %s: %s\n", room, now, username, message)], where
    [now] is the text [time.Now().Format("3:04PM")] returned. *)
Definition chat_line (r now u message : string) : string :=
  "[" +:+ r +:+ "] " +:+ now +:+ " - " +:+ u +:+ ": " +:+ message +:+ nl.

Definition msg_banned : string := "You are banned from the chat." +:+ nl.
Definition msg_kicked : string := "You have been kicked from the chat." +:+ nl.
Definition msg_must_join : string :=
  "You must join a room first using /join [room_name] or create a room using /create [room_name]." +:+ nl.
Definition msg_usage_join : string := "Usage: /join [room_name]" +:+ nl.
Definition msg_usage_create : string := "Usage: /create [room_name]" +:+ nl.
Definition msg_unknown : string := "Unknown command. Type /help for a list of commands." +:+ nl.
Definition msg_help : string :=
  "/join [room_name] - Join a room" +:+ nl +:+
  "/create [room_name] - Create a room" +:+ nl +:+
  "/help - Show this help message" +:+ nl.
Definition msg_not_found (r : string) : string :=
  "Room " +:+ r +:+ " does not exist. Use /create [room_name] to create a new room." +:+ nl.
Definition msg_exists (r : string) : string :=
  "Room " +:+ r +:+ " already exists. Use /join [room_name] to join the room." +:+ nl.
Definition msg_joined (r : string) : string := "Joined room " +:+ r +:+ nl.
Definition msg_created (r : string) : string := "Created and joined room " +:+ r +:+ nl.

(** ** The command interpreter ([handleCommand], [handleConnection]) *)

(** The block that occurs three times in the source (lines 58-61, 101-104
    and 129-132): a client whose [room] field is set is taken out of that
    room's slice and a leave notice is sent to the router.  The shift of
    [removeClient] is in place; the entry that is written is the only one
    it is shown in (see [State]). *)
Definition leave_room (client : ptr) (s : State) : State * list event :=
  let cl := deref s client in
  if decide (room cl = "") then (s, [])
  else
    (with_rooms s (<[room cl := removeClient (room_slice s (room cl)) client]> (rooms s)),
     [Send (left_notice (room cl) (username cl))]).

(** Lines 105-106 and 133-134: [client.room = roomName] followed by
    [rooms[roomName] = append(rooms[roomName], client)].  Whether [append]
    writes into the backing array or into a new one is up to the run-time
    system; the value stored under [roomName] is the same, and that is the
    entry shown here (see [State]). *)
Definition enter_room (client : ptr) (roomName : string) (s : State) : State :=
  let s1 := set_room client roomName s in
  with_rooms s1 (<[roomName := room_slice s1 roomName ++ [client]]> (rooms s1)).

Definition handleCommand (message : string) (client : ptr) (s : State)
  : State * list event :=
  let parts := Split message space in
  let command := nth 0 parts "" in
  let c := conn (deref s client) in
  if decide (command = "/join") then
    if Nat.ltb (length parts) 2 then (s, [conn_Write s c msg_usage_join])
    else
      let roomName := nth 1 parts "" in
      match rooms s !! roomName with
      | None => (s, [conn_Write s c (msg_not_found roomName)])
      | Some _ =>
          match bannedUsers s !! RemoteAddr c with
          | Some _ => (s, [conn_Write s c msg_banned])
          | None =>
              let '(s1, notice) := leave_room client s in
              let s2 := enter_room client roomName s1 in
              (s2, notice ++ [conn_Write s2 c (msg_joined roomName);
                            Send (joined_notice roomName (username (deref s2 client)))])
          end
      end
  else if decide (command = "/create") then
    if Nat.ltb (length parts) 2 then (s, [conn_Write s c msg_usage_create])
    else
      let roomName := nth 1 parts "" in
      match rooms s !! roomName with
      | Some _ => (s, [conn_Write s c (msg_exists roomName)])
      | None =>
          match bannedUsers s !! RemoteAddr c with
          | Some _ => (s, [conn_Write s c msg_banned])
          | None =>
              let s0 := with_rooms s (<[roomName := []]> (rooms s)) in
              let '(s1, notice) := leave_room client s0 in
              let s2 := enter_room client roomName s1 in
              (s2, notice ++ [conn_Write s2 c (msg_created roomName);
                            Send (created_notice roomName (username (deref s2 client)))])
          end
      end
  else if decide (command = "/help") then (s, [conn_Write s c msg_help])
  else (s, [conn_Write s c msg_unknown]).

(** [handleConnection], lines 39-51: the [Client] object is allocated at
    [client], registered, and only then is the ban list consulted.  On a
    banned address the function returns, which also runs the deferred
    [conn.Close()].  The flag tells whether the read loop is entered. *)
Definition handleConnection_start (c : Conn) (client : ptr) (s : State)
  : State * list event * bool :=
  let s1 := with_heap s (<[client := mkClient c "Anonymous" ""]> (heap s)) in
  let s2 := with_clients s1 (<[c := client]> (clients s1)) in
  match bannedUsers s2 !! RemoteAddr c with
  | Some _ =>
      (with_open s2 (open s2 ∖ {[c]}), [conn_Write s2 c msg_banned; Close c; Close c], false)
  | None => (s2, [], true)
  end.

(** [main], line 316: [listener.Accept()] hands out a new open connection. *)
Definition accept (c : Conn) (s : State) : State :=
  with_open s ({[c]} ∪ open s).

(** One turn of the read loop when [ReadString] returned a line, lines
    66-75; [message] is the line after [strings.TrimSpace] and [now] is the
    text [time.Now().Format("3:04PM")] returned. *)
Definition handleConnection_line (now message : string) (client : ptr) (s : State)
  : State * list event :=
  let cl := deref s client in
  if HasPrefix message "/" then handleCommand message client s
  else if decide (room cl = "") then (s, [conn_Write s (conn cl) msg_must_join])
  else (s, [Send (chat_line (room cl) now (username cl) message)]).

(** The turn of the read loop when [ReadString] returned an error, lines
    55-65, followed by the deferred [conn.Close()]. *)
Definition handleConnection_readerr (client : ptr) (s : State) : State * list event :=
  let c := conn (deref s client) in
  let '(s1, notice) := leave_room client s in
  let s2 := with_clients s1 (delete c (clients s1)) in
  (with_open s2 (open s2 ∖ {[c]}), notice ++ [Close c]).

(** ** Moderation ([kickUser], [banUser], [adminConsole]) *)

(** Index and value of the first pointer in [roomClients] whose object has
    connection [c] (the inner loop of [kickUser]). *)
Fixpoint find_conn (s : State) (c : Conn) (roomClients : list ptr) : option (nat * ptr) :=
  match roomClients with
  | [] => None
  | client :: rest =>
      if decide (conn (deref s client) = c) then Some (0, client)
      else prod_map S id <$> find_conn s c rest
  end.

(** [kickUser].  Go visits the keys of a map in an unspecified order; [ks]
    is the order of this run of [for _, roomClients := range rooms].

    [append(roomClients[:i], roomClients[i+1:]...)] shifts the cells of the
    visited room's backing array in place and the shorter slice is stored
    under [client.room].  When that is the visited key the entry is simply
    replaced; when it is another key, the visited entry keeps its old length
    over the shifted cells, that is the shorter slice followed by the old
    last cell.  (From then on the two entries share one backing array, which
    this value model does not follow any further.) *)
Fixpoint kickUser (ks : list string) (c : Conn) (s : State) : State * list event :=
  match ks with
  | [] => (s, [])
  | k :: ks' =>
      let roomClients := room_slice s k in
      match find_conn s c roomClients with
      | Some (i, client) =>
          let shorter := cut i roomClients in
          let shifted := shorter ++ drop (length roomClients - 1) roomClients in
          let s1 := with_rooms s (<[room (deref s client) := shorter]>
                                    (<[k := shifted]> (rooms s))) in
          let s2 := set_room client "" s1 in
          (s2, [conn_Write s2 c msg_kicked])
      | None => kickUser ks' c s
      end
  end.

Definition banUser (ks : list string) (c : Conn) (s : State) : State * list event :=
  let connAddr := RemoteAddr c in
  let s1 := with_bannedUsers s (<[connAddr := mkBannedUser connAddr]> (bannedUsers s)) in
  kickUser ks c s1.

(** [adminConsole], the [/kick] and [/ban] cases: [cs] is the order in which
    this run of [for conn := range clients] visits the registry; the first
    connection with the given address is kicked (banned) and the loop
    stops. *)
Definition adminConsole_kick (cs : list Conn) (ks : list string) (ip : string) (s : State)
  : State * list event :=
  match List.find (λ c, bool_decide (RemoteAddr c = ip)) cs with
  | Some c => kickUser ks c s
  | None => (s, [])
  end.

Definition adminConsole_ban (cs : list Conn) (ks : list string) (ip : string) (s : State)
  : State * list event :=
  match List.find (λ c, bool_decide (RemoteAddr c = ip)) cs with
  | Some c => banUser ks c s
  | None => (s, [])
  end.

(** An order in which a [range] loop may visit the keys of a map. *)
Definition range_order {K V} `{Countable K} (m : gmap K V) (ks : list K) : Prop :=
  ks ≡ₚ elements (dom m).

(** ** The broadcast router ([handleBroadcast]) *)

(** The loop [for _, client := range rooms[room]] of lines 165-173.

    The range expression is evaluated once, so the loop runs over the cells
    the slice had on entry and reads cell [i] when it gets there.  [arr]
    holds those cells, [i] is the index of the next one, [n] the number of
    turns left.  The body may store a shorter slice under [rooms[room]];
    [removeClient] builds it by shifting the cells of the same backing array
    in place, so the cells the loop has not read yet change with it: after a
    removal from a slice of length [m], the array reads as the shorter slice
    followed by the old cells from [m-1] on.  The shorter slice is stored
    under [rooms[room]]; other entries are left as they are (see [State]). *)
Fixpoint fanout (message room : string) (n i : nat) (arr : list ptr) (s : State)
  : State * list event :=
  match n with
  | 0 => (s, [])
  | S n' =>
      match arr !! i with
      | None => (s, [])
      | Some client =>
          let c := conn (deref s client) in
          if writable s c then
            let '(s', evs) := fanout message room n' (S i) arr s in
            (s', Write c message true :: evs)
          else
            let s1 := with_open s (open s ∖ {[c]}) in
            let s2 := with_clients s1 (delete c (clients s1)) in
            let cur := room_slice s2 room in
            let arr' := match index_of cur client with
                        | Some j => cut j cur ++ drop (length cur - 1) arr
                        | None => arr
                        end in
            let s3 := with_rooms s2 (<[room := removeClient cur client]> (rooms s2)) in
            let '(s', evs) := fanout message room n' (S i) arr' s3 in
            (s', Write c message false :: Close c :: evs)
      end
  end.

(** One turn of [handleBroadcast] for a received [message].  [None] is the
    run-time panic of the slice expression of line 163. *)
Definition handleBroadcast (message : string) (s : State) : option (State * list event) :=
  let parts := SplitN message space 3 in
  room ← strip_brackets (nth 0 parts "");
  let members := room_slice s room in
  Some (fanout message room (length members) 0 members s).

(** ** The server as a transition system

    The goroutines of the program interleave.  The mutex makes the critical
    sections of [handleCommand], of the read-error branch and of the router
    atomic with respect to each other, and the transition system below takes
    one such section as one step.  [listener.Accept()] in [main] and the
    registration of the connection by its handler are two steps: between
    them the connection is open and nobody has registered it.

    [kickUser], [banUser] and the loops of [adminConsole] take no lock in
    the source.  The steps [Kick] and [Ban] describe a call of theirs that
    does not overlap a critical section of a handler or of the router; what
    an overlapping call does is not part of this model.  The two functions
    store a shorter slice of members under the name in the session's
    [room] field, clear that field, write a notice and add to
    [bannedUsers]; they touch neither the registry, the connections, the
    display names nor the messages handed to the router, which is what the
    invariants proved below for all reachable states are about.  The
    agreement of directory and sessions, which a call that overlaps a
    handler can break, is stated for runs without console actions only.

    - [handlers] are the [Client]s whose [handleConnection] is in its read
      loop.
    - [pending] are the messages handed to [broadcast <-] that the router
      has not delivered yet; the router may take any of them next, which
      covers every order in which blocked senders can be served. *)
Record System := mkSystem {
  st : State;
  handlers : gset ptr;
  pending : list string
}.

Definition boot : System := mkSystem init ∅ [].

(** The messages a list of effects hands to the router. *)
Definition sends (evs : list event) : list string :=
  omap (λ e, match e with Send m => Some m | _ => None end) evs.

Inductive action :=
  | Accept (c : Conn)
  | Connect (c : Conn) (client : ptr)
  | Line (now message : string) (client : ptr)
  | ReadErr (client : ptr)
  | Deliver (i : nat)
  | Kick (cs : list Conn) (ks : list string) (ip : string)
  | Ban (cs : list Conn) (ks : list string) (ip : string)
  | PeerGone (c : Conn).

(** When an action can happen. *)
Definition ready (a : action) (σ : System) : Prop :=
  match a with
  | Accept c =>
      (* a connection object that did not exist *)
      (c ∉ open (st σ)) ∧
      clients (st σ) !! c = None ∧
      map_Forall (λ _ cl, conn cl ≠ c) (heap (st σ))
  | Connect c client =>
      (* the handler of an accepted connection starts, with a [Client]
         object that did not exist *)
      c ∈ open (st σ) ∧
      map_Forall (λ _ cl, conn cl ≠ c) (heap (st σ)) ∧
      heap (st σ) !! client = None
  | Line _ _ client =>
      (* a handler in its loop read a line from a connection nobody closed *)
      client ∈ handlers σ ∧ conn (deref (st σ) client) ∈ open (st σ)
  | ReadErr client => client ∈ handlers σ
  | Deliver i =>
      (* the router received the [i]-th pending message and did not panic *)
      is_Some (message ← pending σ !! i; handleBroadcast message (st σ))
  | Kick cs ks _ | Ban cs ks _ =>
      range_order (clients (st σ)) cs ∧ range_order (rooms (st σ)) ks
  | PeerGone _ => True
  end.

Global Instance range_order_dec {K V} `{Countable K} (m : gmap K V) ks :
  Decision (range_order m ks).
Proof. unfold range_order. apply _. Defined.

Global Instance ready_dec a σ : Decision (ready a σ).
Proof. destruct a; cbn [ready]; unfold range_order; apply _. Defined.

(** What it does. *)
Definition do (a : action) (σ : System) : System :=
  match a with
  | Accept c => mkSystem (accept c (st σ)) (handlers σ) (pending σ)
  | Connect c client =>
      let '(s', evs, loop) := handleConnection_start c client (st σ) in
      mkSystem s' (if loop : bool then {[client]} ∪ handlers σ else handlers σ)
               (pending σ ++ sends evs)
  | Line now message client =>
      let '(s', evs) := handleConnection_line now message client (st σ) in
      mkSystem s' (handlers σ) (pending σ ++ sends evs)
  | ReadErr client =>
      let '(s', evs) := handleConnection_readerr client (st σ) in
      mkSystem s' (handlers σ ∖ {[client]}) (pending σ ++ sends evs)
  | Deliver i =>
      match message ← pending σ !! i; handleBroadcast message (st σ) with
      | Some (s', _) => mkSystem s' (handlers σ) (delete i (pending σ))
      | None => σ
      end
  | Kick cs ks ip =>
      mkSystem (adminConsole_kick cs ks ip (st σ)).1 (handlers σ) (pending σ)
  | Ban cs ks ip =>
      mkSystem (adminConsole_ban cs ks ip (st σ)).1 (handlers σ) (pending σ)
  | PeerGone c =>
      mkSystem (with_broken (st σ) ({[c]} ∪ broken (st σ))) (handlers σ) (pending σ)
  end.

Definition step (σ : System) (a : action) (σ' : System) : Prop :=
  ready a σ ∧ σ' = do a σ.

Inductive reachable : System → Prop :=
  | reachable_boot : reachable boot
  | reachable_step σ a σ' : reachable σ → step σ a σ' → reachable σ'.

(** Running a list of actions, and whether each was ready in its turn. *)
Fixpoint play (tr : list action) (σ : System) : System :=
  match tr with
  | [] => σ
  | a :: tr' => play tr' (do a σ)
  end.

Fixpoint playable (tr : list action) (σ : System) : bool :=
  match tr with
  | [] => true
  | a :: tr' => bool_decide (ready a σ) && playable tr' (do a σ)
  end.

(** ** Consistency of one session

    What the source relies on when it treats [client.room] as the one place
    where a client is listed: the pointers in the room directory whose
    object has connection [c] are all [client], [client] is listed in the
    room of its [room] field only, and at most once there. *)
Definition listed_once (s : State) (c : Conn) (client : ptr) : Prop :=
  (∀ k q, q ∈ room_slice s k → conn (deref s q) = c →
          q = client ∧ k = room (deref s client)) ∧
  (∀ i j, room_slice s (room (deref s client)) !! i = Some client →
          room_slice s (room (deref s client)) !! j = Some client → i = j).

(** A test that is sufficient for [listed_once]. *)
Definition check_listed_once (s : State) (c : Conn) (client : ptr) : bool :=
  bool_decide (map_Forall (λ k l,
      Forall (λ q, conn (deref s q) = c → q = client ∧ k = room (deref s client)) l)
    (rooms s))
  && bool_decide (NoDup (room_slice s (room (deref s client)))).

(** No room lists a client with connection [c]. *)
Definition unlisted (s : State) (c : Conn) : Prop :=
  ∀ k q, q ∈ room_slice s k → conn (deref s q) ≠ c.

(** [client] is listed in no room at all. *)
Definition in_no_room (s : State) (client : ptr) : Prop :=
  ∀ k l, rooms s !! k = Some l → client ∉ l.

(** Several commands of one session, one after the other. *)
Fixpoint handleCommands (messages : list string) (client : ptr) (s : State)
  : State * list event :=
  match messages with
  | [] => (s, [])
  | message :: rest =>
      let '(s1, evs1) := handleCommand message client s in
      let '(s2, evs2) := handleCommands rest client s1 in
      (s2, evs1 ++ evs2)
  end.

(** Every name in the room directory and every session's [room] field is
    free of spaces, and a [room] field that is set names a room of the
    directory. *)
Definition names_ok (s : State) : Prop :=
  (∀ k, is_Some (rooms s !! k) → no_space k = true) ∧
  (∀ p cl, heap s !! p = Some cl →
           no_space (room cl) = true ∧ (room cl ≠ "" → is_Some (rooms s !! room cl))).

(** ** Synchronisation skeleton

    What the goroutines do to the mutex and to the channel, with the data
    left out.  [broadcast] is made by [make(chan string)]: a channel without
    a buffer, on which a send completes only by handing the value to a
    receiver that is waiting. *)
Module Sync.

Inductive op := Lock | Unlock | SendMsg.

(** The synchronisation statements on the paths of a connection handler. *)
Definition chat_path : list op := [SendMsg].
  (* line 73 *)
Definition move_path : list op := [Lock; SendMsg; Unlock; SendMsg].
  (* /join or /create from inside a room: lines 90, 103, 107, 109
     (117, 131, 135, 137) *)
Definition enter_path : list op := [Lock; Unlock; SendMsg].
  (* /join or /create from outside every room: lines 90, 107, 109 *)
Definition reject_path : list op := [Lock; Unlock].
  (* lines 90-94, 96-99 *)
Definition readerr_path : list op := [Lock; SendMsg; Unlock].
  (* lines 57, 60, 63 *)

Inductive owner := Handler (i : nat) | Router.

Global Instance owner_eq_dec : EqDecision owner.
Proof. solve_decision. Defined.

(** Where [handleBroadcast] stands: at the receive of line 161, at the
    [mutex.Lock()] of line 164 with a message in hand, or inside the loop
    of lines 165-173 up to the [mutex.Unlock()] of line 174. *)
Inductive router_pc := Receiving | Locking | Delivering.

(** The buffer size given to [make]: none. *)
Definition broadcast_cap : nat := 0.

Record state := mkState {
  mutex : option owner;
  router : router_pc;
  buffered : nat;              (* messages sitting in the channel buffer *)
  threads : list (list op);    (* what each handler still has to execute *)
  sent : nat;                  (* sends completed so far *)
  delivered : nat              (* messages the router is done with *)
}.

Definition start (paths : list (list op)) : state :=
  mkState None Receiving 0 paths 0 0.

(** One statement of handler [i]; [None] when it cannot proceed now. *)
Definition step_thread (i : nat) (s : state) : option state :=
  match threads s !! i with
  | Some (Lock :: rest) =>
      match mutex s with
      | None => Some (mkState (Some (Handler i)) (router s) (buffered s)
                              (<[i := rest]> (threads s)) (sent s) (delivered s))
      | Some _ => None
      end
  | Some (Unlock :: rest) =>
      if decide (mutex s = Some (Handler i))
      then Some (mkState None (router s) (buffered s)
                         (<[i := rest]> (threads s)) (sent s) (delivered s))
      else None
  | Some (SendMsg :: rest) =>
      match router s, buffered s with
      | Receiving, 0 =>
          Some (mkState (mutex s) Locking 0
                        (<[i := rest]> (threads s)) (S (sent s)) (delivered s))
      | _, b =>
          if b <? broadcast_cap
          then Some (mkState (mutex s) (router s) (S b)
                             (<[i := rest]> (threads s)) (S (sent s)) (delivered s))
          else None
      end
  | _ => None
  end.

(** One statement of the router. *)
Definition step_router (s : state) : option state :=
  match router s with
  | Receiving =>
      match buffered s with
      | 0 => None
      | S b => Some (mkState (mutex s) Locking b (threads s) (sent s) (delivered s))
      end
  | Locking =>
      match mutex s with
      | None => Some (mkState (Some Router) Delivering (buffered s)
                              (threads s) (sent s) (delivered s))
      | Some _ => None
      end
  | Delivering =>
      Some (mkState None Receiving (buffered s) (threads s) (sent s) (S (delivered s)))
  end.

(** A schedule names who moves next: [Some i] handler [i], [None] the
    router. *)
Definition step (who : option nat) (s : state) : option state :=
  match who with
  | Some i => step_thread i s
  | None => step_router s
  end.

Fixpoint run (sched : list (option nat)) (s : state) : option state :=
  match sched with
  | [] => Some s
  | who :: sched' => s' ← step who s; run sched' s'
  end.

(** Handler [i] stands at a send. *)
Definition at_send (s : state) (i : nat) : Prop :=
  ∃ rest, threads s !! i = Some (SendMsg :: rest).

(** Nobody can move. *)
Definition stuck (s : state) : Prop := ∀ who, step who s = None.

(** Messages handed over and not yet dealt with. *)
Definition in_flight (s : state) : nat := sent s - delivered s.

End Sync.

(** What holds between the channel and the router at every moment: the
    channel buffers nothing, and the sends completed are the messages the
    router is done with plus the one it has in hand. *)
Definition rendezvous (s : Sync.state) : Prop :=
  Sync.buffered s = 0 ∧
  Sync.sent s
  = Sync.delivered s + match Sync.router s with Sync.Receiving => 0 | _ => 1 end.

(** ** Concrete sessions used in the examples

    Each example system is the outcome of a list of actions played from
    [boot], kept in evaluated form. *)

Definition alice : Conn := mkConn 1 "10.0.0.1:40001".
Definition bob : Conn := mkConn 2 "10.0.0.2:40002".
Definition carol : Conn := mkConn 3 "10.0.0.3:40003".

(** Alice (client 1), Bob (client 2) and Carol (client 3) connect. *)
Definition three_connect : list action :=
  [Accept alice; Connect alice 1; Accept bob; Connect bob 2;
   Accept carol; Connect carol 3].

(** Alice creates a room called [a]; Bob and Carol are in no room. *)
Definition room_a_trace : list action :=
  three_connect ++ [Line "3:04PM" "/create a" 1; Deliver 0].

Definition room_a : System := Eval vm_compute in play room_a_trace boot.

(** Alice creates [lobby] and Bob joins it; the router delivers the two
    notices.  Carol stays in no room. *)
Definition lobby_trace : list action :=
  three_connect ++
  [Line "3:04PM" "/create lobby" 1; Deliver 0;
   Line "3:05PM" "/join lobby" 2; Deliver 0].

Definition lobby : System := Eval vm_compute in play lobby_trace boot.

(** Carol joins too: the members are Alice, Bob, Carol, in this order.
    Then Alice's peer goes away without the server noticing yet. *)
Definition lobby3_alice_gone_trace : list action :=
  lobby_trace ++ [Line "3:06PM" "/join lobby" 3; Deliver 0; PeerGone alice].

Definition lobby3_alice_gone : System :=
  Eval vm_compute in play lobby3_alice_gone_trace boot.

(** The operator bans Alice's address while she is connected and in no
    room. *)
Definition alice_banned_trace : list action :=
  three_connect ++ [Ban [alice; bob; carol] [] "10.0.0.1:40001"].

Definition alice_banned : System := Eval vm_compute in play alice_banned_trace boot.

(** After the ban Alice's connection ends, and a new connection arrives
    from the address that was banned. *)
Definition alice_again : Conn := mkConn 4 "10.0.0.1:40001".

Definition refused_trace : list action :=
  alice_banned_trace ++ [ReadErr 1; Accept alice_again; Connect alice_again 4].

Definition refused : System := Eval vm_compute in play refused_trace boot.

(** Alice sends [/create  x] and then [/join  x], each with two spaces. *)
Definition empty_name_trace : list action :=
  three_connect ++
  [Line "3:04PM" "/create  x" 1; Deliver 0;
   Line "3:05PM" "/join  x" 1; Deliver 0].

Definition empty_name : System := Eval vm_compute in play empty_name_trace boot.

(** The chat line as the specification words it: no dash between the time
    and the display name. *)
Definition spec_chat_line (r now u message : string) : string :=
  "[" +:+ r +:+ "] " +:+ now +:+ " " +:+ u +:+ ": " +:+ message +:+ nl.

(** ** Further notions used in the properties below *)

(** The connections a list of effects writes to, and those it closes. *)
Definition written_to (evs : list event) : list Conn :=
  omap (λ e, match e with Write c _ _ => Some c | _ => None end) evs.

Definition closed_by (evs : list event) : list Conn :=
  omap (λ e, match e with Close c => Some c | _ => None end) evs.

(** [strings.Join(parts, sep)] for a one-byte separator: the inverse of
    [Split]. *)
Fixpoint Join (parts : list string) (sep : ascii) : string :=
  match parts with
  | [] => ""
  | [p] => p
  | p :: ps => p +:+ String sep (Join ps sep)
  end.

(** Number of occurrences of a byte. *)
Fixpoint count_byte (c : ascii) (s : string) : nat :=
  match s with
  | EmptyString => 0
  | String x s' => (if Ascii.eqb x c then 1 else 0) + count_byte c s'
  end.

(** The state after the body of the loop handled a failed write to
    [client]. *)
Definition pruned (r : string) (client : ptr) (s : State) : State :=
  let c := conn (deref s client) in
  let s1 := with_open s (open s ∖ {[c]}) in
  let s2 := with_clients s1 (delete c (clients s1)) in
  with_rooms s2 (<[r := removeClient (room_slice s2 r) client]> (rooms s2)).

(** The state [s'] has what [s] has, or less: the same sessions, ban list
    and broken connections, no new open connection, no new registry entry,
    the same rooms, and in each room a sublist of its members. *)
Definition shrunk (s s' : State) : Prop :=
  heap s' = heap s ∧ bannedUsers s' = bannedUsers s ∧ broken s' = broken s ∧
  open s' ⊆ open s ∧
  (∀ c p, clients s' !! c = Some p → clients s !! c = Some p) ∧
  (∀ k, room_slice s' k `sublist_of` room_slice s k).

(** A message that starts with a bracketed, space-free room name and a
    space, as every line the handlers hand to the router does. *)
Definition addressed (message : string) : Prop :=
  ∃ r rest, message = "[" +:+ r +:+ "] " +:+ rest ∧ no_space r = true.

(** Lobby with Alice and Bob, and a line of Bob's waiting for the router. *)
Definition lobby_talking_trace : list action :=
  lobby_trace ++ [Line "3:07PM" "hello" 2].

Definition lobby_talking : System := Eval vm_compute in play lobby_talking_trace boot.

(** A [/join] or [/create] line whose second token is empty, as in
    ["/create  x"] with two spaces. *)
Definition names_empty_room (message : string) : bool :=
  let parts := Split message space in
  (bool_decide (nth 0 parts "" = "/join") || bool_decide (nth 0 parts "" = "/create"))
  && negb (Nat.ltb (length parts) 2)
  && bool_decide (nth 1 parts "" = "").

(** The steps that the mutex serialises, other than such a line: the
    console's [Kick] and [Ban], which run without the lock, are left out. *)
Definition tidy (a : action) : bool :=
  match a with
  | Line _ message _ => negb (names_empty_room message)
  | Kick _ _ _ | Ban _ _ _ => false
  | _ => true
  end.

(** The room directory and the sessions agree: there is no room with the
    empty name, whoever is listed in a room is a session whose [room] field
    names that room, no room lists anybody twice, and different sessions
    have different connections. *)
Definition agree (s : State) : Prop :=
  rooms s !! "" = None ∧
  (∀ k l q, rooms s !! k = Some l → q ∈ l →
            is_Some (heap s !! q) ∧ room (deref s q) = k) ∧
  (∀ k l, rooms s !! k = Some l → NoDup l) ∧
  (∀ p q cp cq, heap s !! p = Some cp → heap s !! q = Some cq →
                conn cp = conn cq → p = q).

(** The same for a system, whose handlers all have their session. *)
Definition consistent (σ : System) : Prop :=
  agree (st σ) ∧ ∀ p, p ∈ handlers σ → is_Some (heap (st σ) !! p).

(** The handler paths that never send while they hold the lock. *)
Definition sends_outside_lock (path : list Sync.op) : Prop :=
  path ∈ [Sync.chat_path; Sync.enter_path; Sync.reject_path].

(** What such handlers have left to do at any moment, and the handler that
    holds the lock is the one about to unlock. *)
Definition thread_ok (s : Sync.state) (i : nat) (rest : list Sync.op) : Prop :=
  rest ∈ [[Sync.SendMsg]; []; [Sync.Lock; Sync.Unlock; Sync.SendMsg];
          [Sync.Unlock; Sync.SendMsg]; [Sync.Lock; Sync.Unlock]; [Sync.Unlock]] ∧
  (Sync.mutex s = Some (Sync.Handler i) ↔ head rest = Some Sync.Unlock).

Definition sync_ok (s : Sync.state) : Prop :=
  (∀ i rest, Sync.threads s !! i = Some rest → thread_ok s i rest) ∧
  (∀ i, Sync.mutex s = Some (Sync.Handler i) → i < length (Sync.threads s)) ∧
  (Sync.mutex s = Some Sync.Router ↔ Sync.router s = Sync.Delivering) ∧
  Sync.buffered s = 0.

(** The last element of [a :: l]. *)
Fixpoint final (a : ptr) (l : list ptr) : ptr :=
  match l with
  | [] => a
  | b :: l' => final b l'
  end.

(** The cells the loop of [handleBroadcast] still reads after the member in
    front of [after] was pruned: the shift moved every later member one
    cell down, so the loop, which already stands one cell further, misses
    the first of them and meets the last one twice. *)
Definition cells_after_shift (after : list ptr) : list ptr :=
  match after with
  | [] => []
  | a :: rest => rest ++ [final a rest]
  end.

(** A fourth session, Dave (client 4), connects and joins the lobby of
    Alice, Bob and Carol; then Bob's peer goes away. *)
Definition dave : Conn := mkConn 5 "10.0.0.4:40004".

Definition lobby4_bob_gone_trace : list action :=
  lobby_trace ++
  [Line "3:06PM" "/join lobby" 3; Deliver 0;
   Accept dave; Connect dave 4; Line "3:07PM" "/join lobby" 4; Deliver 0;
   PeerGone bob].

Definition lobby4_bob_gone : System :=
  Eval vm_compute in play lobby4_bob_gone_trace boot.

(** Every session has the display name it was created with, and whoever
    handles a connection or is listed in a room is a session. *)
Definition anonymous (s : State) : Prop :=
  ∀ p cl, heap s !! p = Some cl → username cl = "Anonymous".

Definition housed (s : State) : Prop :=
  ∀ k q, q ∈ room_slice s k → is_Some (heap s !! q).

Definition named (σ : System) : Prop :=
  anonymous (st σ) ∧ housed (st σ) ∧
  ∀ p, p ∈ handlers σ → is_Some (heap (st σ) !! p).

(** Every session of [H] whose connection is open is in the registry,
    under its connection. *)
Definition served (H : gset ptr) (s : State) : Prop :=
  ∀ p, p ∈ H → conn (deref s p) ∈ open s → clients s !! conn (deref s p) = Some p.
(** ** Facts about the string functions *)

Lemma append_nil b : "" +:+ b = b.
Proof. reflexivity. Qed.

Lemma append_cons c a b : String c a +:+ b = String c (a +:+ b).
Proof. reflexivity. Qed.

Lemma append_assoc a b c : (a +:+ b) +:+ c = a +:+ (b +:+ c).
Proof.
  induction a as [|x a IH]; [done|]. by rewrite !append_cons, IH.
Qed.

Lemma length_app a b :
  String.length (a +:+ b) = String.length a + String.length b.
Proof.
  induction a as [|c a IH]; [done|].
  rewrite append_cons. cbn [String.length]. by rewrite IH.
Qed.

Lemma no_space_cons c s :
  no_space (String c s) = true ↔ c ≠ space ∧ no_space s = true.
Proof.
  cbn [no_space]. rewrite andb_true_iff, negb_true_iff.
  destruct (Ascii.eqb_spec c space); intuition congruence.
Qed.

Lemma no_space_app a b :
  no_space (a +:+ b) = true ↔ no_space a = true ∧ no_space b = true.
Proof.
  induction a as [|c a IH].
  - rewrite append_nil. cbn [no_space]. intuition.
  - rewrite append_cons, !no_space_cons, IH. intuition.
Qed.

(** Every part [Split] returns is free of the separator. *)
Lemma Split_no_space s p : p ∈ Split s space → no_space p = true.
Proof.
  revert p. induction s as [|c s IH]; intros p; cbn [Split].
  - intros ->%list_elem_of_singleton. done.
  - destruct (Ascii.eqb_spec c space) as [->|Hc].
    + intros [->|Hp]%elem_of_cons; [done|auto].
    + destruct (Split s space) as [|q qs] eqn:Hq; cbn [cons_head].
      * intros ->%list_elem_of_singleton. by apply no_space_cons.
      * intros [->|Hp]%elem_of_cons.
        -- apply no_space_cons. split; [done|]. apply IH. left.
        -- apply IH. by right.
Qed.

Lemma Split_nonempty s : Split s space ≠ [].
Proof.
  destruct s as [|c s]; cbn [Split]; [done|].
  destruct (Ascii.eqb c space); [done|].
  by destruct (Split s space).
Qed.

(** A separator-free prefix followed by the separator is the first part. *)
Lemma Split_app a b :
  no_space a = true → Split (a +:+ String space b) space = a :: Split b space.
Proof.
  induction a as [|c a IH].
  - done.
  - intros [Hc Ha]%no_space_cons. rewrite append_cons. cbn [Split].
    destruct (Ascii.eqb_spec c space); [done|].
    by rewrite IH.
Qed.

Lemma Split_single a : no_space a = true → Split a space = [a].
Proof.
  induction a as [|c a IH]; cbn [Split]; [done|].
  intros [Hc Ha]%no_space_cons.
  destruct (Ascii.eqb_spec c space); [done|].
  by rewrite IH.
Qed.

Lemma SplitN_app a b n :
  no_space a = true →
  SplitN (a +:+ String space b) space (S (S n)) = a :: SplitN b space (S n).
Proof.
  induction a as [|c a IH].
  - done.
  - intros [Hc Ha]%no_space_cons. rewrite append_cons. cbn [SplitN].
    destruct (Ascii.eqb_spec c space); [done|].
    by rewrite IH.
Qed.

Lemma substring_app_l a b :
  String.substring 0 (String.length a) (a +:+ b) = a.
Proof.
  induction a as [|c a IH].
  - rewrite append_nil. by destruct b.
  - rewrite append_cons. cbn [String.length String.substring]. by rewrite IH.
Qed.

Lemma strip_brackets_wrap r : strip_brackets ("[" +:+ r +:+ "]") = Some r.
Proof.
  unfold strip_brackets. rewrite append_cons, append_nil.
  cbn [String.length]. rewrite length_app. cbn [String.length].
  replace (S (String.length r + 1) - 2) with (String.length r) by lia.
  destruct (Nat.ltb_spec (S (String.length r + 1)) 2); [lia|].
  cbn [String.substring]. by rewrite substring_app_l.
Qed.

(** The router recovers the room name from any line that starts with the
    bracketed name and a space, as long as the name has no space in it. *)
Lemma room_of_line r rest :
  no_space r = true →
  strip_brackets (nth 0 (SplitN ("[" +:+ r +:+ "] " +:+ rest) space 3) "") = Some r.
Proof.
  intros Hr.
  replace ("[" +:+ r +:+ "] " +:+ rest)
    with (("[" +:+ r +:+ "]") +:+ String space rest).
  - rewrite SplitN_app.
    + cbn [nth]. apply strip_brackets_wrap.
    + rewrite append_cons, append_nil.
      apply no_space_cons. split; [done|]. by apply no_space_app.
  - rewrite !append_cons, !append_nil. f_equal. by rewrite append_assoc.
Qed.

(** ** Room names in reachable states *)


Lemma names_ok_deref s p :
  names_ok s →
  no_space (room (deref s p)) = true ∧
  (room (deref s p) ≠ "" → is_Some (rooms s !! room (deref s p))).
Proof.
  intros [_ Hh]. unfold deref. destruct (heap s !! p) as [cl|] eqn:E; cbn.
  - eauto.
  - done.
Qed.

Lemma names_ok_insert_room s k l :
  names_ok s → no_space k = true →
  names_ok (with_rooms s (<[k := l]> (rooms s))).
Proof.
  intros [Hk Hh] Hns. split; cbn.
  - intros k' [->|[_ ?]]%lookup_insert_is_Some; [done|]. by apply Hk.
  - intros p cl Hp. destruct (Hh p cl Hp) as [? Hex]. split; [done|].
    intros Hne. apply lookup_insert_is_Some'. right. by apply Hex.
Qed.

Lemma names_ok_grow s s' :
  names_ok s → heap s' = heap s →
  (∀ k, is_Some (rooms s' !! k) → is_Some (rooms s !! k) ∨ no_space k = true) →
  (∀ k, is_Some (rooms s !! k) → is_Some (rooms s' !! k)) →
  names_ok s'.
Proof.
  intros [Hk Hh] Hheap Hnew Hold. split.
  - intros k [?|?]%Hnew; auto.
  - rewrite Hheap. intros p cl Hp. destruct (Hh p cl Hp) as [? Hex]. auto.
Qed.

Lemma names_ok_leave_room client s :
  names_ok s → names_ok (leave_room client s).1.
Proof.
  intros Hok. unfold leave_room.
  destruct (decide (room (deref s client) = "")); cbn [fst]; [done|].
  apply names_ok_insert_room; [done|]. by apply names_ok_deref.
Qed.

Lemma names_ok_set_room client r s :
  names_ok s → no_space r = true → (r ≠ "" → is_Some (rooms s !! r)) →
  names_ok (set_room client r s).
Proof.
  intros [Hk Hh] Hr Hex. split; cbn.
  - done.
  - intros p cl [[-> <-]|[_ Hp]]%lookup_insert_Some; cbn; [done|]. by eapply Hh.
Qed.

Lemma names_ok_enter_room client r s :
  names_ok s → no_space r = true → names_ok (enter_room client r s).
Proof.
  intros [Hk Hh] Hr. unfold enter_room. split; cbn.
  - intros k' [->|[_ ?]]%lookup_insert_is_Some; [done|]. by apply Hk.
  - intros p cl [[-> <-]|[_ Hp]]%lookup_insert_Some; cbn.
    + split; [done|]. intros _. apply lookup_insert_is_Some'. by left.
    + destruct (Hh p cl Hp) as [? Hex]. split; [done|].
      intros Hne. apply lookup_insert_is_Some'. right. by apply Hex.
Qed.

Lemma nth_Split_no_space message i : no_space (nth i (Split message space) "") = true.
Proof.
  destruct (nth_in_or_default i (Split message space) "") as [Hin| ->]; [|done].
  apply (Split_no_space message). by apply list_elem_of_In.
Qed.

Lemma names_ok_handleCommand message client s :
  names_ok s → names_ok (handleCommand message client s).1.
Proof.
  intros Hok. unfold handleCommand.
  set (parts := Split message space). set (roomName := nth 1 parts "").
  assert (no_space roomName = true) as Hr by apply nth_Split_no_space.
  repeat (case_decide || case_match); cbn [fst]; try done.
  - match goal with H : leave_room _ ?s0 = (?s1, _) |- _ =>
      replace s1 with (leave_room client s0).1 by (by rewrite H) end.
    apply names_ok_enter_room; [|done]. by apply names_ok_leave_room.
  - match goal with H : leave_room _ ?s0 = (?s1, _) |- _ =>
      replace s1 with (leave_room client s0).1 by (by rewrite H) end.
    apply names_ok_enter_room; [|done]. apply names_ok_leave_room.
    by apply names_ok_insert_room.
Qed.

Lemma names_ok_handleConnection_line now message client s :
  names_ok s → names_ok (handleConnection_line now message client s).1.
Proof.
  intros Hok. unfold handleConnection_line.
  destruct (HasPrefix message "/"); [by apply names_ok_handleCommand|].
  by case_decide.
Qed.

Lemma names_ok_frame s s' :
  rooms s' = rooms s → heap s' = heap s → names_ok s → names_ok s'.
Proof. intros Hr Hh [??]. split; rewrite ?Hr, ?Hh; done. Qed.

Lemma names_ok_handleConnection_readerr client s :
  names_ok s → names_ok (handleConnection_readerr client s).1.
Proof.
  intros Hok. unfold handleConnection_readerr.
  pose proof (names_ok_leave_room client s Hok) as Hl.
  destruct (leave_room client s) as [s1 notice]; cbn [fst] in *.
  by eapply names_ok_frame; [| |exact Hl].
Qed.

Lemma names_ok_handleConnection_start c client s :
  names_ok s → names_ok (handleConnection_start c client s).1.1.
Proof.
  intros [Hk Hh]. unfold handleConnection_start. cbn.
  assert (names_ok (with_heap s (<[client := mkClient c "Anonymous" ""]> (heap s)))) as Hok.
  { split; cbn; [done|].
    intros p cl [[-> <-]|[_ Hp]]%lookup_insert_Some; cbn; [done|]. by eapply Hh. }
  case_match; cbn [fst]; by eapply names_ok_frame; [| |exact Hok].
Qed.

Lemma find_conn_Some s c l i client :
  find_conn s c l = Some (i, client) →
  l !! i = Some client ∧ conn (deref s client) = c ∧
  (∀ j q, j < i → l !! j = Some q → conn (deref s q) ≠ c).
Proof.
  revert i. induction l as [|q l IH]; intros i; cbn [find_conn]; [done|].
  case_decide as Hq.
  - intros [= <- <-]. split_and!; [done|done|]. intros; lia.
  - destruct (find_conn s c l) as [[i' cl']|]; [|done]. cbn.
    intros [= <- <-]. destruct (IH i' eq_refl) as (? & ? & Hlt).
    split_and!; [done|done|].
    intros [|j] q' Hj; cbn; [by intros [= <-]|]. apply Hlt. lia.
Qed.

Lemma find_conn_None s c l :
  find_conn s c l = None → ∀ q, q ∈ l → conn (deref s q) ≠ c.
Proof.
  induction l as [|q l IH]; cbn [find_conn]; [by intros _ ? ?%elem_of_nil|].
  case_decide as Hq; [done|].
  destruct (find_conn s c l) as [[??]|] eqn:E; [done|]. intros _ q' [->|?]%elem_of_cons; auto.
Qed.

Lemma names_ok_kickUser ks c s :
  names_ok s → names_ok (kickUser ks c s).1.
Proof.
  intros Hok. induction ks as [|k ks IH]; cbn [kickUser]; [done|].
  destruct (find_conn s c (room_slice s k)) as [[i client]|] eqn:E; [|done].
  cbn [fst]. apply find_conn_Some in E as (Hi & _ & _).
  assert (is_Some (rooms s !! k)) as Hk.
  { unfold room_slice in Hi. destruct (rooms s !! k); [done|]. by destruct i. }
  apply names_ok_set_room; [|done|done].
  pose proof (names_ok_deref s client Hok) as [Hns _].
  apply (names_ok_grow s); [done|done| |]; cbn.
  - intros k' [<-|[_ [<-|[_ ?]]%lookup_insert_is_Some]]%lookup_insert_is_Some; auto.
  - intros k' Hk'. rewrite !lookup_insert_is_Some'. auto.
Qed.

Lemma names_ok_banUser ks c s :
  names_ok s → names_ok (banUser ks c s).1.
Proof.
  intros Hok. unfold banUser. apply names_ok_kickUser.
  by eapply names_ok_frame; [| |exact Hok].
Qed.

Lemma names_ok_fanout message r n i arr s :
  names_ok s → no_space r = true → names_ok (fanout message r n i arr s).1.
Proof.
  intros Hok Hr. revert i arr s Hok.
  induction n as [|n IH]; intros i arr s Hok; cbn [fanout]; [done|].
  destruct (arr !! i) as [client|]; [|done].
  destruct (writable s (conn (deref s client))).
  - specialize (IH (S i) arr s Hok).
    by destruct (fanout message r n (S i) arr s).
  - match goal with |- context [fanout message r n (S i) ?a ?t] =>
      specialize (IH (S i) a t); destruct (fanout message r n (S i) a t) end.
    cbn [fst] in *. apply IH.
    match goal with |- names_ok (with_rooms ?t _) =>
      apply (names_ok_insert_room t); [|done] end.
    by eapply names_ok_frame; [| |exact Hok].
Qed.

Lemma names_ok_handleBroadcast message s s' evs :
  names_ok s → handleBroadcast message s = Some (s', evs) → names_ok s'.
Proof.
  intros Hok. unfold handleBroadcast.
  destruct (strip_brackets _) as [r|]; [|done]. cbn.
  intros [= E]. destruct (rooms s !! r) as [l|] eqn:El.
  - replace s' with (fanout message r (length (room_slice s r)) 0 (room_slice s r) s).1
      by (by rewrite E).
    apply names_ok_fanout; [done|]. apply Hok. by rewrite El.
  - unfold room_slice in E. rewrite El in E. cbn in E. by injection E as <- _.
Qed.

Lemma names_ok_do a σ : ready a σ → names_ok (st σ) → names_ok (st (do a σ)).
Proof.
  intros Hready Hok.
  destruct a as [c|c client|now message client|client|i|cs ks ip|cs ks ip|c]; cbn [do].
  - by eapply names_ok_frame; [| |exact Hok].
  - pose proof (names_ok_handleConnection_start c client (st σ) Hok) as H.
    by destruct (handleConnection_start c client (st σ)) as [[s' evs] loop].
  - pose proof (names_ok_handleConnection_line now message client (st σ) Hok) as H.
    by destruct (handleConnection_line now message client (st σ)).
  - pose proof (names_ok_handleConnection_readerr client (st σ) Hok) as H.
    by destruct (handleConnection_readerr client (st σ)).
  - destruct (pending σ !! i) as [message|]; cbn; [|done].
    destruct (handleBroadcast message (st σ)) as [[s' evs]|] eqn:E; [|done].
    by eapply names_ok_handleBroadcast.
  - cbn [st]. unfold adminConsole_kick. destruct (List.find _ cs); [|done].
    by apply names_ok_kickUser.
  - cbn [st]. unfold adminConsole_ban. destruct (List.find _ cs); [|done].
    by apply names_ok_banUser.
  - by eapply names_ok_frame; [| |exact Hok].
Qed.

(** In every reachable state the room names are in order. *)
Lemma reachable_names_ok σ : reachable σ → names_ok (st σ).
Proof.
  induction 1 as [|σ a σ' _ IH [Hready ->]].
  - split; cbn; intros ?; [|intros ?]; rewrite lookup_empty; [by intros [??]|done].
  - by apply names_ok_do.
Qed.

Lemma play_reachable tr σ :
  reachable σ → playable tr σ = true → reachable (play tr σ).
Proof.
  revert σ. induction tr as [|a tr IH]; intros σ Hσ; cbn [play playable]; [done|].
  intros [Ha Htr]%andb_true_iff. apply IH; [|done].
  eapply reachable_step; [exact Hσ|]. split; [|done]. by apply bool_decide_eq_true_1 in Ha.
Qed.

(** ** The example systems are reachable *)

(** Settles a decidable proposition about concrete data by evaluating its
    decision procedure. *)
Ltac by_evaluation := apply (bool_decide_unpack _); vm_compute; exact I.

Lemma played_reachable tr σ :
  playable tr boot = true → σ = play tr boot → reachable σ.
Proof. intros Hp ->. by apply play_reachable; [apply reachable_boot|]. Qed.

Lemma room_a_reachable : reachable room_a.
Proof. apply (played_reachable room_a_trace); vm_compute; reflexivity. Qed.

Lemma lobby_reachable : reachable lobby.
Proof. apply (played_reachable lobby_trace); vm_compute; reflexivity. Qed.

Lemma lobby3_alice_gone_reachable : reachable lobby3_alice_gone.
Proof. apply (played_reachable lobby3_alice_gone_trace); vm_compute; reflexivity. Qed.

Lemma alice_banned_reachable : reachable alice_banned.
Proof. apply (played_reachable alice_banned_trace); vm_compute; reflexivity. Qed.

Lemma refused_reachable : reachable refused.
Proof. apply (played_reachable refused_trace); vm_compute; reflexivity. Qed.

Lemma empty_name_reachable : reachable empty_name.
Proof. apply (played_reachable empty_name_trace); vm_compute; reflexivity. Qed.

(** ** Chat lines and their format *)

(** What [handleConnection] does with a line that is not a command. *)
Lemma handleConnection_line_chat now message client s :
  HasPrefix message "/" = false →
  room (deref s client) ≠ "" →
  handleConnection_line now message client s
  = (s, [Send (chat_line (room (deref s client)) now (username (deref s client)) message)]).
Proof.
  intros Hpre Hroom. unfold handleConnection_line. rewrite Hpre.
  by destruct (decide (room (deref s client) = "")).
Qed.

Lemma handleConnection_line_roomless now message client s :
  HasPrefix message "/" = false →
  room (deref s client) = "" →
  handleConnection_line now message client s
  = (s, [conn_Write s (conn (deref s client)) msg_must_join]).
Proof.
  intros Hpre Hroom. unfold handleConnection_line. rewrite Hpre.
  by destruct (decide (room (deref s client) = "")).
Qed.

(** C3, as the specification words it, fails: for Alice in room [lobby] the
    line [hi] is sent to the router with a dash between the time and the
    name, which the specified format does not have. *)
Lemma chat_line_not_as_specified :
  room (deref (st lobby) 1) = "lobby" ∧
  handleConnection_line "3:04PM" "hi" 1 (st lobby)
  = (st lobby, [Send ("[lobby] 3:04PM - Anonymous: hi" +:+ nl)]) ∧
  handleConnection_line "3:04PM" "hi" 1 (st lobby)
  ≠ (st lobby, [Send (spec_chat_line "lobby" "3:04PM" "Anonymous" "hi")]).
Proof.
  split_and!.
  - vm_compute. reflexivity.
  - vm_compute. reflexivity.
  - vm_compute. intros [=].
Qed.

(** C3 (amended): a line that is not a command, from a session whose room
    is set, is handed to the router as
    ["[room] time - name: text\n"], with the separator [" - "] between the
    time and the display name; the state does not change. *)
Theorem chat_line_format now message client s :
  HasPrefix message "/" = false →
  room (deref s client) ≠ "" →
  handleConnection_line now message client s
  = (s, [Send ("[" +:+ room (deref s client) +:+ "] " +:+ now +:+ " - "
               +:+ username (deref s client) +:+ ": " +:+ message +:+ nl)]).
Proof. apply handleConnection_line_chat. Qed.

Lemma chat_line_format_witness :
  handleConnection_line "3:04PM" "hi" 1 (st lobby)
  = ((st lobby), [Send ("[" +:+ room (deref (st lobby) 1) +:+ "] " +:+ "3:04PM" +:+ " - "
               +:+ username (deref (st lobby) 1) +:+ ": " +:+ "hi" +:+ nl)]).
Proof.
  apply (chat_line_format "3:04PM" "hi" 1 (st lobby)).
  - vm_compute. reflexivity.
  - vm_compute. discriminate.
Defined.

(** ** Commands that are refused *)

(** C6: [/join] of a room that does not exist answers with the
    room-not-found line and [/create] of a room that exists answers with the
    already-exists line; in both cases the whole state (registry, room
    directory, ban list, every session's room) is the one before, and
    nothing is sent to the router. *)
Theorem refused_command_changes_nothing message client s :
  let parts := Split message space in
  let roomName := nth 1 parts "" in
  let c := conn (deref s client) in
  2 ≤ length parts →
  (nth 0 parts "" = "/join" → rooms s !! roomName = None →
   handleCommand message client s = (s, [conn_Write s c (msg_not_found roomName)]))
  ∧
  (nth 0 parts "" = "/create" → is_Some (rooms s !! roomName) →
   handleCommand message client s = (s, [conn_Write s c (msg_exists roomName)])).
Proof.
  intros parts roomName c Hlen.
  assert (Nat.ltb (length parts) 2 = false) as Hlt by (apply Nat.ltb_ge; lia).
  split.
  - intros Hcmd Hnone. unfold handleCommand. fold parts. rewrite Hcmd.
    rewrite decide_True by done. rewrite Hlt. fold roomName. by rewrite Hnone.
  - intros Hcmd [l Hsome]. unfold handleCommand. fold parts. rewrite Hcmd.
    rewrite decide_False by done. rewrite decide_True by done.
    rewrite Hlt. fold roomName. by rewrite Hsome.
Qed.

Lemma refused_command_changes_nothing_witness :
  (let parts := Split "/join nope" space in
   let roomName := nth 1 parts "" in
   let c := conn (deref (st lobby) 3) in
   handleCommand "/join nope" 3 (st lobby)
   = (st lobby, [conn_Write (st lobby) c (msg_not_found roomName)]))
  ∧
  (let parts := Split "/create lobby" space in
   let roomName := nth 1 parts "" in
   let c := conn (deref (st lobby) 3) in
   handleCommand "/create lobby" 3 (st lobby)
   = (st lobby, [conn_Write (st lobby) c (msg_exists roomName)])).
Proof.
  split.
  - apply (refused_command_changes_nothing "/join nope" 3 (st lobby)).
    + vm_compute. lia.
    + vm_compute. reflexivity.
    + vm_compute. reflexivity.
  - apply (refused_command_changes_nothing "/create lobby" 3 (st lobby)).
    + vm_compute. lia.
    + vm_compute. reflexivity.
    + vm_compute. eauto.
Defined.

(** ** Which room a command names *)

Lemma heap_leave_room client s : heap (leave_room client s).1 = heap s.
Proof. unfold leave_room. by case_decide. Qed.

Lemma deref_leave_room client s p : deref (leave_room client s).1 p = deref s p.
Proof. unfold deref. by rewrite heap_leave_room. Qed.

Lemma rooms_leave_room_is_Some client s k :
  is_Some (rooms (leave_room client s).1 !! k) ↔
  is_Some (rooms s !! k) ∨ (room (deref s client) ≠ "" ∧ k = room (deref s client)).
Proof.
  unfold leave_room. case_decide as Hr; cbn.
  - intuition.
  - rewrite lookup_insert_is_Some'. intuition.
Qed.

Lemma rooms_enter_room client r s :
  rooms (enter_room client r s) = <[r := room_slice s r ++ [client]]> (rooms s).
Proof. done. Qed.

Lemma deref_set_room_eq client r s :
  deref (set_room client r s) client
  = mkClient (conn (deref s client)) (username (deref s client)) r.
Proof. unfold deref at 1, set_room. cbn. by rewrite lookup_insert_eq. Qed.

Lemma deref_set_room_ne client r s p :
  p ≠ client → deref (set_room client r s) p = deref s p.
Proof. intros Hne. unfold deref, set_room. cbn. by rewrite lookup_insert_ne. Qed.

Lemma deref_enter_room_eq client r s :
  deref (enter_room client r s) client
  = mkClient (conn (deref s client)) (username (deref s client)) r.
Proof. apply deref_set_room_eq. Qed.

Lemma deref_enter_room_ne client r s p :
  p ≠ client → deref (enter_room client r s) p = deref s p.
Proof. apply deref_set_room_ne. Qed.

(** The outcome of a command is decided by its first two tokens and by
    whether there is a second one. *)
Lemma handleCommand_tokens m1 m2 client s :
  nth 0 (Split m1 space) "" = nth 0 (Split m2 space) "" →
  nth 1 (Split m1 space) "" = nth 1 (Split m2 space) "" →
  Nat.ltb (length (Split m1 space)) 2 = Nat.ltb (length (Split m2 space)) 2 →
  handleCommand m1 client s = handleCommand m2 client s.
Proof. intros H0 H1 Hl. unfold handleCommand. by rewrite H0, H1, Hl. Qed.

(** The four ways a command can end. *)
Lemma handleCommand_cases message client s :
  let roomName := nth 1 (Split message space) "" in
  (handleCommand message client s).1 = s ∨
  (handleCommand message client s).1
  = enter_room client roomName (leave_room client s).1 ∨
  (handleCommand message client s).1
  = enter_room client roomName
      (leave_room client (with_rooms s (<[roomName := []]> (rooms s)))).1.
Proof.
  intros roomName. unfold handleCommand. fold roomName.
  repeat (case_decide || case_match); cbn [fst]; auto.
Qed.

(** ** Fan-out of one message *)

Lemma elem_of_take_1 {A} n (l : list A) x : x ∈ take n l → x ∈ l.
Proof. apply subseteq_take. Qed.

Lemma elem_of_drop_1 {A} n (l : list A) x : x ∈ drop n l → x ∈ l.
Proof. apply subseteq_drop. Qed.

Lemma elem_of_cut i (l : list ptr) x : x ∈ cut i l → x ∈ l.
Proof.
  unfold cut. intros [H|H]%elem_of_app.
  - by eapply elem_of_take_1.
  - by eapply elem_of_drop_1.
Qed.

Lemma elem_of_removeClient (l : list ptr) client x : x ∈ removeClient l client → x ∈ l.
Proof.
  unfold removeClient. destruct (index_of l client); [apply elem_of_cut|done].
Qed.

(** While every write succeeds the loop changes nothing and writes to the
    cells in order. *)
Lemma fanout_all_writable message r n i arr s :
  (∀ p, p ∈ take n (drop i arr) → writable s (conn (deref s p)) = true) →
  fanout message r n i arr s
  = (s, (λ p, Write (conn (deref s p)) message true) <$> take n (drop i arr)).
Proof.
  revert i. induction n as [|n IH]; intros i Hw; cbn [fanout]; [done|].
  destruct (arr !! i) as [client|] eqn:Hi.
  - rewrite (drop_S _ _ _ Hi) in Hw |- *. cbn [take fmap list_fmap] in *.
    rewrite Hw by left.
    rewrite IH; [done|]. intros p Hp. apply Hw. by right.
  - apply lookup_ge_None in Hi. by rewrite drop_ge by lia.
Qed.

(** Whatever fails, the loop writes the message, and only to connections
    of clients that were in the cells or in the room when it started. *)
Lemma fanout_writes_within message r (l : list ptr) n :
  ∀ i arr s,
    (∀ x, x ∈ arr → x ∈ l) →
    (∀ x, x ∈ room_slice s r → x ∈ l) →
    ∀ c d ok, Write c d ok ∈ (fanout message r n i arr s).2 →
      d = message ∧ ∃ p, p ∈ l ∧ conn (default zeroClient (heap s !! p)) = c.
Proof.
  induction n as [|n IH]; intros i arr s Harr Hcur c d ok; cbn [fanout].
  { by intros ?%elem_of_nil. }
  destruct (arr !! i) as [client|] eqn:Hi; [|by intros ?%elem_of_nil].
  assert (client ∈ l) as Hcl by (apply Harr; by eapply list_elem_of_lookup_2).
  cbv zeta. destruct (writable s (conn (deref s client))).
  - specialize (IH (S i) arr s Harr Hcur c d ok).
    destruct (fanout message r n (S i) arr s) as [s' evs]. cbn [snd] in *.
    intros [[= -> -> ->]|Hin]%elem_of_cons; [|by apply IH].
    split; [done|]. by exists client.
  - match goal with |- context [fanout message r n (S i) ?a ?t] =>
      specialize (IH (S i) a t); destruct (fanout message r n (S i) a t) as [s' evs] end.
    cbn [snd] in *.
    intros [[= -> -> ->]|[[=]|Hin]%elem_of_cons]%elem_of_cons.
    { split; [done|]. by exists client. }
    eapply IH; [| |exact Hin].
    + intros x. destruct (index_of _ client); [|by apply Harr].
      intros [Hx%elem_of_cut|Hx%elem_of_drop_1]%elem_of_app; [|by apply Harr].
      by apply Hcur.
    + intros x. unfold room_slice at 1. cbn. rewrite lookup_insert_eq. cbn.
      intros Hx%elem_of_removeClient. by apply Hcur.
Qed.

(** C1, as the specification words it, fails: Alice and Bob are the members
    of [lobby]; Alice's line [hi] goes to the router, and the router writes
    it to Alice herself before it writes it to Bob. *)
Lemma sender_receives_own_line :
  let line := chat_line "lobby" "3:07PM" "Anonymous" "hi" in
  conn (deref (st lobby) 1) = alice ∧
  room_slice (st lobby) "lobby" = [1; 2] ∧
  handleConnection_line "3:07PM" "hi" 1 (st lobby) = (st lobby, [Send line]) ∧
  handleBroadcast line (st lobby)
  = Some (st lobby, [Write alice line true; Write bob line true]).
Proof. cbv zeta. split_and!; vm_compute; reflexivity. Qed.

(** C1 (amended): a chat line from a session of a reachable state is handed
    to the router unchanged; the router writes that line and nothing else,
    and only to connections of members of the sender's room.  When no write
    fails it writes the line once to every member, in the order of the
    member list, the sender included, and leaves the state as it was. *)
Theorem chat_line_reaches_the_room σ now message client :
  reachable σ →
  let s := st σ in
  let cl := deref s client in
  let line := chat_line (room cl) now (username cl) message in
  let members := room_slice s (room cl) in
  HasPrefix message "/" = false →
  room cl ≠ "" →
  handleConnection_line now message client s = (s, [Send line]) ∧
  ∃ s' evs,
    handleBroadcast line s = Some (s', evs) ∧
    (∀ c d ok, Write c d ok ∈ evs →
               d = line ∧ ∃ p, p ∈ members ∧ conn (deref s p) = c) ∧
    ((∀ p, p ∈ members → writable s (conn (deref s p)) = true) →
     s' = s ∧
     evs = (λ p, Write (conn (deref s p)) line true) <$> members ∧
     (client ∈ members → Write (conn cl) line true ∈ evs)).
Proof.
  intros Hreach s cl line members Hpre Hroom.
  split; [by apply handleConnection_line_chat|].
  destruct (names_ok_deref s client (reachable_names_ok σ Hreach)) as [Hns _].
  unfold handleBroadcast, line, chat_line. rewrite room_of_line by done.
  fold (chat_line (room cl) now (username cl) message). fold line. cbn.
  fold members.
  destruct (fanout line (room cl) (length members) 0 members s) as [s' evs] eqn:E.
  exists s', evs. split_and!; [done| |].
  - intros c d ok Hin.
    apply (fanout_writes_within line (room cl) members (length members) 0 members s
             (λ _ H, H) (λ _ H, H) c d ok). by rewrite E.
  - intros Hw. rewrite fanout_all_writable in E.
    + rewrite drop_0, firstn_all in E. injection E as <- <-.
      split_and!; [done|done|]. intros Hin.
      apply (list_elem_of_fmap_2 (λ p, Write (conn (deref s p)) line true) members client Hin).
    + rewrite drop_0, firstn_all. exact Hw.
Qed.

Lemma chat_line_reaches_the_room_witness :
  let s := st lobby in
  let cl := deref s 2 in
  let line := chat_line (room cl) "3:07PM" (username cl) "hi" in
  let members := room_slice s (room cl) in
  handleConnection_line "3:07PM" "hi" 2 s = (s, [Send line]) ∧
  ∃ s' evs,
    handleBroadcast line s = Some (s', evs) ∧
    (∀ c d ok, Write c d ok ∈ evs →
               d = line ∧ ∃ p, p ∈ members ∧ conn (deref s p) = c) ∧
    ((∀ p, p ∈ members → writable s (conn (deref s p)) = true) →
     s' = s ∧
     evs = (λ p, Write (conn (deref s p)) line true) <$> members ∧
     (2 ∈ members → Write (conn cl) line true ∈ evs)).
Proof.
  apply (chat_line_reaches_the_room lobby "3:07PM" "hi" 2 lobby_reachable).
  - vm_compute. reflexivity.
  - vm_compute. discriminate.
Defined.

(** ** Kicking *)

Lemma find_conn_unlisted s c l :
  (∀ q, q ∈ l → conn (deref s q) ≠ c) → find_conn s c l = None.
Proof.
  induction l as [|q l IH]; intros Hl; cbn [find_conn]; [done|].
  rewrite decide_False by (apply Hl; left).
  rewrite IH; [done|]. intros q' Hq'. apply Hl. by right.
Qed.

(** When [client] is the only pointer of [l] with connection [c], the inner
    loop of [kickUser] finds what [removeClient] looks for. *)
Lemma find_conn_index_of s c l client :
  (∀ q, q ∈ l → conn (deref s q) = c ↔ q = client) →
  find_conn s c l = (λ i, (i, client)) <$> index_of l client.
Proof.
  induction l as [|q l IH]; intros Hl; cbn [find_conn index_of]; [done|].
  destruct (decide (q = client)) as [->|Hne].
  - rewrite decide_True; [done|]. apply Hl; [left|done].
  - rewrite decide_False; [|intros Hc; apply Hne, Hl; [left|done]].
    rewrite IH; [|intros q' Hq'; apply Hl; by right].
    by destruct (index_of l client).
Qed.

Lemma index_of_Some (l : list ptr) client i :
  index_of l client = Some i → l !! i = Some client.
Proof.
  revert i. induction l as [|q l IH]; intros i; cbn [index_of]; [done|].
  case_decide as Hq; [by intros [= <-]; subst|].
  destruct (index_of l client) as [j|]; [|done]. intros [= <-]. by apply IH.
Qed.

Lemma index_of_elem (l : list ptr) client :
  client ∈ l → is_Some (index_of l client).
Proof.
  induction l as [|q l IH]; [by intros ?%elem_of_nil|]. cbn [index_of].
  case_decide; [by eauto|]. intros [->|Hin]%elem_of_cons; [done|].
  destruct (IH Hin) as [j ->]. by eauto.
Qed.

Lemma index_of_None (l : list ptr) client :
  index_of l client = None → client ∉ l.
Proof.
  intros Hn Hin. destruct (index_of_elem l client Hin) as [? ?]. congruence.
Qed.

(** If [client] occurs once in [l], cutting it out leaves none. *)
Lemma not_elem_of_cut (l : list ptr) client i :
  l !! i = Some client →
  (∀ j, l !! j = Some client → i = j) →
  client ∉ cut i l.
Proof.
  intros Hi Huniq [Hin|Hin]%elem_of_app.
  - apply elem_of_take in Hin as (j & Hj & Hlt). apply Huniq in Hj. lia.
  - apply list_elem_of_lookup in Hin as [j Hj]. rewrite lookup_drop in Hj.
    apply Huniq in Hj. lia.
Qed.

Lemma room_slice_insert_eq s k l :
  room_slice (with_rooms s (<[k := l]> (rooms s))) k = l.
Proof. unfold room_slice. cbn. by rewrite lookup_insert_eq. Qed.

Lemma room_slice_insert_ne s k k' l :
  k ≠ k' → room_slice (with_rooms s (<[k := l]> (rooms s))) k' = room_slice s k'.
Proof. intros Hne. unfold room_slice. cbn. by rewrite lookup_insert_ne. Qed.


(** A connection that is listed once, in the room of its [room] field, is
    taken out of that room, whatever the order of the iteration. *)
Lemma kickUser_listed_once ks c client s :
  let r := room (deref s client) in
  conn (deref s client) = c →
  listed_once s c client →
  r ∈ ks →
  client ∈ room_slice s r →
  kickUser ks c s
  = (set_room client ""
       (with_rooms s (<[r := removeClient (room_slice s r) client]> (rooms s))),
     [Write c msg_kicked (writable s c)]).
Proof.
  intros r Hc [Hall Huniq] Hr Hin.
  induction ks as [|k ks IH]; [by apply elem_of_nil in Hr|]. cbn [kickUser].
  destruct (decide (k = r)) as [->|Hne].
  - rewrite (find_conn_index_of s c (room_slice s r) client).
    + destruct (index_of_elem _ _ Hin) as [i Hi].
      unfold removeClient. rewrite Hi. cbn. fold r.
      by rewrite insert_insert_eq.
    + intros q Hq. split; [intros Hq'; by apply (Hall r q)|by intros ->].
  - rewrite find_conn_unlisted.
    + apply IH. by apply elem_of_cons in Hr as [?|?].
    + intros q Hq Hq'. by destruct (Hall k q Hq Hq') as [_ ?].
Qed.

(** After [kickUser] a listed-once connection is listed nowhere. *)
Lemma kickUser_listed_once_unlisted ks c client s :
  let r := room (deref s client) in
  conn (deref s client) = c →
  listed_once s c client →
  r ∈ ks →
  client ∈ room_slice s r →
  unlisted (kickUser ks c s).1 c.
Proof.
  intros r Hc Hlo Hr Hin. rewrite (kickUser_listed_once ks c client s) by done.
  cbn [fst]. fold r. destruct Hlo as [Hall Huniq]. fold r in Huniq.
  intros k q Hq Hconn.
  assert (conn (deref s q) = c) as Hconn'.
  { destruct (decide (q = client)) as [->|Hne].
    - done.
    - by rewrite deref_set_room_ne in Hconn. }
  change (room_slice (set_room client "" ?t) k) with (room_slice t k) in Hq.
  destruct (decide (k = r)) as [->|Hne].
  - rewrite room_slice_insert_eq in Hq.
    assert (q = client) as ->.
    { apply (Hall r q); [|done]. by eapply elem_of_removeClient. }
    revert Hq. unfold removeClient.
    destruct (index_of (room_slice s r) client) as [i|] eqn:Hi.
    + apply not_elem_of_cut; [by apply index_of_Some|].
      intros j Hj. apply Huniq; [by apply index_of_Some|done].
    + by apply index_of_None.
  - rewrite room_slice_insert_ne in Hq by done.
    by destruct (Hall k q Hq Hconn') as [_ ?].
Qed.

Lemma check_listed_once_sound s c client :
  check_listed_once s c client = true → listed_once s c client.
Proof.
  intros [Hall Hnd]%andb_true_iff.
  apply bool_decide_eq_true_1 in Hall. apply bool_decide_eq_true_1 in Hnd.
  split.
  - intros k q Hq. unfold room_slice in Hq.
    destruct (rooms s !! k) as [l|] eqn:Hk; cbn in Hq; [|by apply elem_of_nil in Hq].
    specialize (Hall k l Hk). rewrite Forall_forall in Hall. by apply Hall.
  - intros i j Hi Hj. by eapply NoDup_lookup.
Qed.

(** C4, as the specification words it, fails for a connected session that
    is in no room: Carol is registered and her connection is open, and
    [kickUser] neither writes the notice to her nor does anything else;
    the console command has the same outcome. *)
Lemma kick_outside_rooms_is_silent :
  clients (st lobby) !! carol = Some 3 ∧
  carol ∈ open (st lobby) ∧
  range_order (rooms (st lobby)) ["lobby"] ∧
  kickUser ["lobby"] carol (st lobby) = (st lobby, []) ∧
  adminConsole_kick [alice; bob; carol] ["lobby"] "10.0.0.3:40003" (st lobby)
  = (st lobby, []).
Proof.
  split_and!.
  - vm_compute. reflexivity.
  - by_evaluation.
  - by_evaluation.
  - vm_compute. reflexivity.
  - vm_compute. reflexivity.
Qed.

(** C4 (amended): a kick of a session that is a member of the room its
    [room] field names, and is listed there once and nowhere else, takes it
    out of that room's member list, clears its [room] field, writes the
    kicked notice to its connection and has no other effect: nothing is sent
    to the router, no connection is closed, the registry, the ban list and
    every other session are as before.  What the session says next is
    answered with the join-a-room-first line. *)
Theorem kick_of_a_member ks c client s :
  let r := room (deref s client) in
  let s' := (kickUser ks c s).1 in
  conn (deref s client) = c →
  listed_once s c client →
  r ∈ ks →
  client ∈ room_slice s r →
  (client ∉ room_slice s' r) ∧
  rooms s' = <[r := removeClient (room_slice s r) client]> (rooms s) ∧
  room (deref s' client) = "" ∧
  (∀ p, p ≠ client → deref s' p = deref s p) ∧
  (kickUser ks c s).2 = [Write c msg_kicked (writable s c)] ∧
  clients s' = clients s ∧ open s' = open s ∧ bannedUsers s' = bannedUsers s ∧
  (∀ now message,
     HasPrefix message "/" = false →
     handleConnection_line now message client s'
     = (s', [Write c msg_must_join (writable s c)])).
Proof.
  intros r s' Hc Hlo Hr Hin.
  pose proof (kickUser_listed_once_unlisted ks c client s Hc Hlo Hr Hin) as Hun.
  fold s' in Hun.
  assert (kickUser ks c s
          = (set_room client ""
               (with_rooms s (<[r := removeClient (room_slice s r) client]> (rooms s))),
             [Write c msg_kicked (writable s c)])) as E
    by (by apply kickUser_listed_once).
  assert (deref s' client = mkClient c (username (deref s client)) "") as Hd.
  { unfold s'. rewrite E. cbn [fst]. rewrite deref_set_room_eq. by rewrite <-Hc. }
  split_and!.
  - intros Hin'. apply (Hun r client Hin'). by rewrite Hd.
  - unfold s'. by rewrite E.
  - by rewrite Hd.
  - intros p Hne. unfold s'. rewrite E. cbn [fst]. by rewrite deref_set_room_ne.
  - by rewrite E.
  - unfold s'. by rewrite E.
  - unfold s'. by rewrite E.
  - unfold s'. by rewrite E.
  - intros now message Hpre.
    rewrite handleConnection_line_roomless by (done || by rewrite Hd).
    rewrite Hd. unfold s'. by rewrite E.
Qed.

Lemma kick_of_a_member_witness :
  let s := st lobby in
  let r := room (deref s 2) in
  let s' := (kickUser ["lobby"] bob s).1 in
  (2 ∉ room_slice s' r) ∧
  rooms s' = <[r := removeClient (room_slice s r) 2]> (rooms s) ∧
  room (deref s' 2) = "" ∧
  (∀ p, p ≠ 2 → deref s' p = deref s p) ∧
  (kickUser ["lobby"] bob s).2 = [Write bob msg_kicked (writable s bob)] ∧
  clients s' = clients s ∧ open s' = open s ∧ bannedUsers s' = bannedUsers s ∧
  (∀ now message,
     HasPrefix message "/" = false →
     handleConnection_line now message 2 s'
     = (s', [Write bob msg_must_join (writable s bob)])).
Proof.
  apply (kick_of_a_member ["lobby"] bob 2 (st lobby)).
  - vm_compute. reflexivity.
  - apply check_listed_once_sound. vm_compute. reflexivity.
  - by_evaluation.
  - by_evaluation.
Defined.

(** ** Banning *)

Lemma kickUser_frame ks c s :
  bannedUsers (kickUser ks c s).1 = bannedUsers s ∧
  clients (kickUser ks c s).1 = clients s ∧
  open (kickUser ks c s).1 = open s ∧
  broken (kickUser ks c s).1 = broken s.
Proof.
  induction ks as [|k ks IH]; cbn [kickUser]; [done|].
  by destruct (find_conn s c (room_slice s k)) as [[i client]|].
Qed.



(** C9 fails on a state the server reaches.  After [/create  x] and
    [/join  x] (two spaces each) the second token is empty: Alice is listed
    twice in the room with the empty name while her [room] field is empty.
    The first ban takes one entry out, the second ban the other, so banning
    twice does not leave the room directory as banning once does. *)
Theorem ban_twice_differs_from_ban_once :
  let once := (banUser [""] alice (st empty_name)).1 in
  let twice := (banUser [""] alice once).1 in
  reachable empty_name ∧
  range_order (rooms (st empty_name)) [""] ∧
  room_slice (st empty_name) "" = [1; 1] ∧
  room_slice once "" = [1] ∧
  room_slice twice "" = [] ∧
  rooms twice ≠ rooms once.
Proof.
  cbv zeta. split_and!.
  - exact empty_name_reachable.
  - by_evaluation.
  - vm_compute. reflexivity.
  - vm_compute. reflexivity.
  - vm_compute. reflexivity.
  - by_evaluation.
Qed.

(** ** Commands from a banned address *)

Lemma handleCommand_banned message client s :
  let c := conn (deref s client) in
  let parts := Split message space in
  let roomName := nth 1 parts "" in
  is_Some (bannedUsers s !! RemoteAddr c) →
  (handleCommand message client s).1 = s ∧
  sends (handleCommand message client s).2 = [] ∧
  (nth 0 parts "" = "/join" →
   (handleCommand message client s).2
   = [conn_Write s c
        (if Nat.ltb (length parts) 2 then msg_usage_join
         else match rooms s !! roomName with
              | None => msg_not_found roomName
              | Some _ => msg_banned
              end)]) ∧
  (nth 0 parts "" = "/create" →
   (handleCommand message client s).2
   = [conn_Write s c
        (if Nat.ltb (length parts) 2 then msg_usage_create
         else match rooms s !! roomName with
              | Some _ => msg_exists roomName
              | None => msg_banned
              end)]).
Proof.
  intros c parts roomName [b Hb]. unfold handleCommand.
  fold parts roomName c. rewrite Hb.
  destruct (decide (nth 0 parts "" = "/join")) as [Hj|Hj];
    [|destruct (decide (nth 0 parts "" = "/create")) as [Hc|Hc]].
  - destruct (Nat.ltb (length parts) 2), (rooms s !! roomName); cbn;
      split_and!; try done; by rewrite Hj.
  - destruct (Nat.ltb (length parts) 2), (rooms s !! roomName); cbn;
      split_and!; done.
  - case_decide; cbn; done.
Qed.

(** C2, as the specification words it, fails: Alice's address is in the ban
    list and she is still connected; her [/join nope] is answered with the
    room-not-found line, not with the banned line. *)
Lemma banned_join_answered_not_found :
  reachable alice_banned ∧
  is_Some (bannedUsers (st alice_banned) !! RemoteAddr alice) ∧
  ready (Line "3:10PM" "/join nope" 1) alice_banned ∧
  handleCommand "/join nope" 1 (st alice_banned)
  = (st alice_banned, [Write alice (msg_not_found "nope") true]) ∧
  msg_not_found "nope" ≠ msg_banned.
Proof.
  split_and!.
  - exact alice_banned_reachable.
  - vm_compute. eauto.
  - by_evaluation.
  - vm_compute. reflexivity.
  - vm_compute. discriminate.
Qed.

(** C2 (amended): whatever a session whose address is in the ban list sends
    as a command, and however many commands it sends, the state stays as it
    is (so a session that is in no room stays in no room) and nothing is
    sent to the router.  The answer to [/join] and [/create] goes to the
    session's own connection: the usage line when the room name is missing,
    the room-not-found line for [/join] of a missing room, the
    already-exists line for [/create] of an existing room, and the banned
    line in the remaining cases. *)
Theorem banned_session_cannot_enter messages message client s :
  let c := conn (deref s client) in
  let parts := Split message space in
  let roomName := nth 1 parts "" in
  is_Some (bannedUsers s !! RemoteAddr c) →
  (handleCommand message client s).1 = s ∧
  sends (handleCommand message client s).2 = [] ∧
  (nth 0 parts "" = "/join" →
   (handleCommand message client s).2
   = [conn_Write s c
        (if Nat.ltb (length parts) 2 then msg_usage_join
         else match rooms s !! roomName with
              | None => msg_not_found roomName
              | Some _ => msg_banned
              end)]) ∧
  (nth 0 parts "" = "/create" →
   (handleCommand message client s).2
   = [conn_Write s c
        (if Nat.ltb (length parts) 2 then msg_usage_create
         else match rooms s !! roomName with
              | Some _ => msg_exists roomName
              | None => msg_banned
              end)]) ∧
  (handleCommands messages client s).1 = s ∧
  sends (handleCommands messages client s).2 = [] ∧
  (in_no_room s client → in_no_room (handleCommands messages client s).1 client).
Proof.
  intros c parts roomName Hb.
  destruct (handleCommand_banned message client s Hb) as (H1 & H2 & H3 & H4).
  assert ((handleCommands messages client s).1 = s ∧
          sends (handleCommands messages client s).2 = []) as [H5 H6].
  { induction messages as [|m ms [IH1 IH2]]; cbn [handleCommands]; [done|].
    destruct (handleCommand_banned m client s Hb) as (E1 & E2 & _).
    destruct (handleCommand m client s) as [s1 evs1]. cbn [fst snd] in E1, E2. subst s1.
    destruct (handleCommands ms client s) as [s2 evs2]. cbn [fst snd] in *.
    split; [done|]. unfold sends in *. by rewrite omap_app, E2, IH2. }
  split_and!; try done. by rewrite H5.
Qed.

Lemma banned_session_cannot_enter_witness :
  (handleCommand "/create den" 1 (st alice_banned)).1 = st alice_banned ∧
  (handleCommand "/create den" 1 (st alice_banned)).2 = [Write alice msg_banned true] ∧
  (handleCommands ["/create den"; "/join den"; "/create den"] 1 (st alice_banned)).1
  = st alice_banned.
Proof.
  destruct (banned_session_cannot_enter
              ["/create den"; "/join den"; "/create den"] "/create den" 1 (st alice_banned))
    as (H1 & _ & _ & _ & H5 & _).
  - vm_compute. eauto.
  - split_and!; [exact H1|vm_compute; reflexivity|exact H5].
Defined.

(** ** The registry and the open connections *)

(** What [handleConnection] does with a connection from a banned address:
    it registers the client, writes the banned line, closes the connection
    and returns without taking the client out of the registry. *)
Lemma handleConnection_start_banned c client s :
  is_Some (bannedUsers s !! RemoteAddr c) →
  ∃ s', handleConnection_start c client (accept c s)
        = (s', [Write c msg_banned (writable (accept c s) c); Close c; Close c], false) ∧
        clients s' !! c = Some client ∧
        (c ∉ open s').
Proof.
  intros [b Hb]. unfold handleConnection_start. cbn. rewrite Hb.
  eexists. split_and!; [done| |]; cbn.
  - by rewrite lookup_insert_eq.
  - intros [_ Hn]%elem_of_difference. apply Hn. by apply elem_of_singleton.
Qed.

(** C5 fails on a state the server reaches.  Alice's address is banned, her
    connection ends, and a new connection arrives from the same address:
    it is refused and closed, its handler has returned, and its entry is
    still in the registry. *)
Theorem refused_connection_stays_registered :
  reachable refused ∧
  clients (st refused) !! alice_again = Some 4 ∧
  (alice_again ∉ open (st refused)) ∧
  (4 ∉ handlers refused) ∧
  dom (clients (st refused)) ≠ open (st refused).
Proof.
  split_and!.
  - exact refused_reachable.
  - vm_compute. reflexivity.
  - by_evaluation.
  - by_evaluation.
  - by_evaluation.
Qed.

(** ** Write failures during fan-out *)

(** One turn of the loop on a member whose write fails: before the loop
    goes on, the connection is closed, its registry entry is deleted and the
    first occurrence of the client is taken out of the room; the only
    effects are the failed write and the close, so nothing is reported to
    anybody. *)
Lemma fanout_failed_write message r n i arr s client :
  let c := conn (deref s client) in
  arr !! i = Some client →
  writable s c = false →
  ∃ s1 arr',
    (fanout message r (S n) i arr s).1 = (fanout message r n (S i) arr' s1).1 ∧
    (fanout message r (S n) i arr s).2
    = Write c message false :: Close c :: (fanout message r n (S i) arr' s1).2 ∧
    (c ∉ open s1) ∧
    clients s1 = delete c (clients s) ∧
    rooms s1 = <[r := removeClient (room_slice s r) client]> (rooms s) ∧
    heap s1 = heap s ∧ bannedUsers s1 = bannedUsers s.
Proof.
  intros c Hi Hw. cbn [fanout]. rewrite Hi. fold c. rewrite Hw.
  eexists _, _.
  match goal with |- context [fanout message r n (S i) ?a ?t] =>
    destruct (fanout message r n (S i) a t) as [s' evs] eqn:E end.
  split_and!; [by rewrite E|by rewrite E| |done|done|done|done].
  cbn. intros [_ Hn]%elem_of_difference. apply Hn. by apply elem_of_singleton.
Qed.

(** C7 fails on a state the server reaches.  Alice, Bob and Carol are the
    members of [lobby], in this order, and Alice's peer is gone.  Carol's
    line [hi] is handed to the router.  The write to Alice fails and she is
    pruned; taking her out shifts the cells of the slice the loop is
    ranging over, so the loop goes on with Carol, and then reads Carol
    again from the last cell.  Bob is a member, his connection is open and
    working, and the line is never written to him. *)
Theorem failed_write_skips_the_next_member :
  let s := st lobby3_alice_gone in
  let line := chat_line "lobby" "3:08PM" "Anonymous" "hi" in
  reachable lobby3_alice_gone ∧
  room_slice s "lobby" = [1; 2; 3] ∧
  conn (deref s 2) = bob ∧ writable s bob = true ∧
  handleConnection_line "3:08PM" "hi" 3 s = (s, [Send line]) ∧
  ∃ s',
    handleBroadcast line s
    = Some (s', [Write alice line false; Close alice;
                 Write carol line true; Write carol line true]) ∧
    room_slice s' "lobby" = [2; 3] ∧
    clients s' !! alice = None ∧
    (alice ∉ open s').
Proof.
  cbv zeta. split_and!.
  - exact lobby3_alice_gone_reachable.
  - vm_compute. reflexivity.
  - vm_compute. reflexivity.
  - vm_compute. reflexivity.
  - vm_compute. reflexivity.
  - eexists. split_and!.
    + vm_compute. reflexivity.
    + vm_compute. reflexivity.
    + vm_compute. reflexivity.
    + by_evaluation.
Qed.

(** ** Sending to the router *)


Lemma rendezvous_step who s s' :
  rendezvous s → Sync.step who s = Some s' → rendezvous s'.
Proof.
  intros [Hb Hs]. destruct who as [i|]; cbn [Sync.step].
  - unfold Sync.step_thread.
    destruct (Sync.threads s !! i) as [[|[] rest]|]; try done.
    + destruct (Sync.mutex s); [done|]. by intros [= <-].
    + case_decide; [|done]. by intros [= <-].
    + rewrite Hb. destruct (Sync.router s) eqn:Hr; cbn; try done.
      intros [= <-]. split; cbn; [done|lia].
  - unfold Sync.step_router. rewrite Hb.
    destruct (Sync.router s) eqn:Hr; [done| |].
    + destruct (Sync.mutex s); [done|]. intros [= <-]. split; cbn; [done|].
      try rewrite Hr in Hs. cbn in Hs. lia.
    + intros [= <-]. split; cbn; [done|lia].
Qed.

Lemma rendezvous_run sched s s' :
  rendezvous s → Sync.run sched s = Some s' → rendezvous s'.
Proof.
  revert s. induction sched as [|who sched IH]; intros s Hs; cbn [Sync.run].
  - by intros [= <-].
  - destruct (Sync.step who s) as [s1|] eqn:E; cbn; [|done].
    apply IH. by eapply rendezvous_step.
Qed.

(** Sending to the router is a hand-over without a buffer.  In every
    state the goroutines reach, whatever paths the handlers run and however
    they are scheduled, the channel holds no message and at most one
    message is in flight (sent and not yet dealt with by the router); a
    send completes only while the router is waiting at its receive, and a
    handler that arrives at a send while the router is busy waits. *)
Lemma send_waits_for_the_router paths sched s :
  Sync.run sched (Sync.start paths) = Some s →
  Sync.buffered s = 0 ∧
  Sync.in_flight s ≤ 1 ∧
  (∀ i s', Sync.at_send s i → Sync.step_thread i s = Some s' →
           Sync.router s = Sync.Receiving ∧ Sync.router s' = Sync.Locking) ∧
  (∀ i, Sync.at_send s i → Sync.router s ≠ Sync.Receiving →
        Sync.step_thread i s = None).
Proof.
  intros Hrun.
  assert (rendezvous s) as [Hb Hs].
  { eapply rendezvous_run; [|exact Hrun]. by split. }
  split_and!.
  - done.
  - unfold Sync.in_flight. destruct (Sync.router s); lia.
  - intros i s' [rest Hi]. unfold Sync.step_thread. rewrite Hi, Hb.
    destruct (Sync.router s); cbn; [|done|done]. by intros [= <-].
  - intros i [rest Hi] Hr. unfold Sync.step_thread. rewrite Hi, Hb.
    by destruct (Sync.router s).
Qed.

(** C8 fails: an enqueue can wait, and wait forever.  Handler 0 sends a
    chat line (line 73), which the router receives (line 161).  Before the
    router has the lock (line 164), handler 1 takes it for a [/join] out of
    a room (line 90) and arrives at its send of the leave notice (line
    103), which it makes while it holds the lock.  The router is not at
    its receive, so the send does not complete; the router waits for the
    lock the sender holds, so it never will.  From this state on no
    goroutine can move, whoever is scheduled, and the message is never
    handed over. *)
Theorem enqueue_can_wait_forever :
  ∃ s,
    Sync.run [Some 0; Some 1] (Sync.start [Sync.chat_path; Sync.move_path]) = Some s ∧
    Sync.at_send s 1 ∧
    Sync.mutex s = Some (Sync.Handler 1) ∧
    Sync.router s = Sync.Locking ∧
    Sync.step_thread 1 s = None ∧
    Sync.stuck s ∧
    ∀ sched s', Sync.run sched s = Some s' → s' = s.
Proof.
  eexists. split_and!.
  - vm_compute. reflexivity.
  - eexists. vm_compute. reflexivity.
  - reflexivity.
  - reflexivity.
  - reflexivity.
  - intros [[|[|i]]|]; reflexivity.
  - intros sched s'. destruct sched as [|who sched]; cbn [Sync.run].
    + by intros [= <-].
    + assert (Sync.step who
                (Sync.mkState (Some (Sync.Handler 1)) Sync.Locking 0
                   [[]; [Sync.SendMsg; Sync.Unlock; Sync.SendMsg]] 1 0) = None) as ->
        by (destruct who as [[|[|i]]|]; reflexivity).
      done.
Qed.

(** ** More about [removeClient] and [Split] *)

Lemma index_of_split (slice : list ptr) client i :
  index_of slice client = Some i →
  slice = take i slice ++ client :: drop (S i) slice ∧ (client ∉ take i slice).
Proof.
  revert i. induction slice as [|q l IH]; intros i; cbn [index_of]; [done|].
  case_decide as Hq.
  - intros [= <-]. subst q. cbn. split; [done|]. apply not_elem_of_nil.
  - destruct (index_of l client) as [j|]; [|done]. intros [= <-].
    destruct (IH j eq_refl) as [E Hn]. cbn. split; [by rewrite <-E|].
    intros [->|?]%elem_of_cons; [done|]. by apply Hn.
Qed.

(** X1: [removeClient] takes out the first occurrence of the client and
    nothing else: the members before and after it keep their order; a
    slice that does not hold the client comes back unchanged. *)
Theorem removeClient_first_occurrence (slice : list ptr) (client : ptr) :
  ((client ∉ slice) ∧ removeClient slice client = slice) ∨
  (∃ before after,
     slice = before ++ client :: after ∧
     (client ∉ before) ∧
     removeClient slice client = before ++ after).
Proof.
  unfold removeClient. destruct (index_of slice client) as [i|] eqn:Hi.
  - right. destruct (index_of_split slice client i Hi) as [E Hn].
    by exists (take i slice), (drop (S i) slice).
  - left. split; [by apply index_of_None|done].
Qed.

Lemma Join_cons p q qs sep : Join (p :: q :: qs) sep = p +:+ String sep (Join (q :: qs) sep).
Proof. done. Qed.

Lemma Join_cons_head c parts sep :
  parts ≠ [] → Join (cons_head c parts) sep = String c (Join parts sep).
Proof. destruct parts as [|p [|q qs]]; done. Qed.

(** X2: [Split] loses nothing: joining its parts with the separator gives
    the string back, there is one part more than the string has
    separators, and no part contains the separator. *)
Theorem Split_Join (s : string) :
  Join (Split s space) space = s ∧
  length (Split s space) = S (count_byte space s) ∧
  Forall (λ p, no_space p = true) (Split s space).
Proof.
  split_and!.
  - induction s as [|c s IH]; cbn [Split]; [done|].
    destruct (Ascii.eqb_spec c space) as [->|Hc].
    + pose proof (Split_nonempty s) as Hne.
      destruct (Split s space) as [|p ps] eqn:E; [done|].
      rewrite Join_cons, IH. done.
    + rewrite Join_cons_head by apply Split_nonempty. by rewrite IH.
  - induction s as [|c s IH]; cbn [Split count_byte]; [done|].
    destruct (Ascii.eqb c space); cbn [length]; [by rewrite IH|].
    pose proof (Split_nonempty s) as Hne.
    destruct (Split s space) as [|p ps]; [done|]. cbn in *. lia.
  - apply Forall_forall. intros p. apply Split_no_space.
Qed.

(** X3: [SplitN] with a positive limit loses nothing either, and returns
    at least one part and at most as many as the limit. *)
Theorem SplitN_Join (s : string) (n : nat) :
  Join (SplitN s space (S n)) space = s ∧
  1 ≤ length (SplitN s space (S n)) ≤ S n.
Proof.
  revert n. induction s as [|c s IH]; intros n.
  - destruct n; cbn; split; (done || lia).
  - destruct n as [|n]; [cbn; split; (done || lia)|].
    cbn [SplitN]. destruct (Ascii.eqb_spec c space) as [->|Hc].
    + destruct (IH n) as [E Hl].
      destruct (SplitN s space (S n)) as [|p ps] eqn:Es; [cbn in Hl; lia|].
      rewrite Join_cons, E. cbn in *. split; [done|lia].
    + destruct (IH (S n)) as [E Hl].
      destruct (SplitN s space (S (S n))) as [|p ps] eqn:Es; [cbn in Hl; lia|].
      rewrite Join_cons_head by done. rewrite E. cbn in *. split; [done|lia].
Qed.

(** ** Commands that succeed *)

Lemma elem_of_cut_ne (l : list ptr) i client q :
  l !! i = Some client → q ≠ client → q ∈ cut i l ↔ q ∈ l.
Proof.
  intros Hi Hne. split; [apply elem_of_cut|].
  intros Hq. rewrite <-(take_drop_middle l i client Hi) in Hq.
  apply elem_of_app in Hq as [Hq|[->|Hq]%elem_of_cons]; [|done|];
    unfold cut; apply elem_of_app; auto.
Qed.

Lemma elem_of_removeClient_ne (l : list ptr) client q :
  q ≠ client → q ∈ removeClient l client ↔ q ∈ l.
Proof.
  intros Hne. unfold removeClient.
  destruct (index_of l client) as [i|] eqn:Hi; [|done].
  apply (elem_of_cut_ne l i client q); [by apply index_of_Some|done].
Qed.

Lemma writable_frame s s' c :
  open s' = open s → broken s' = broken s → writable s' c = writable s c.
Proof. intros Ho Hb. unfold writable. by rewrite Ho, Hb. Qed.

Lemma leave_room_frame client s :
  clients (leave_room client s).1 = clients s ∧
  bannedUsers (leave_room client s).1 = bannedUsers s ∧
  open (leave_room client s).1 = open s ∧
  broken (leave_room client s).1 = broken s.
Proof. unfold leave_room. by case_decide. Qed.

Lemma room_slice_leave_room client s k :
  room_slice (leave_room client s).1 k
  = if decide (room (deref s client) ≠ "" ∧ k = room (deref s client))
    then removeClient (room_slice s k) client
    else room_slice s k.
Proof.
  unfold leave_room. destruct (decide (room (deref s client) = "")) as [He|Hne]; cbn [fst].
  - rewrite decide_False; [done|]. by intros [? _].
  - destruct (decide (k = room (deref s client))) as [->|Hk].
    + rewrite decide_True by done. by rewrite room_slice_insert_eq.
    + rewrite decide_False by (by intros [_ ?]). by rewrite room_slice_insert_ne.
Qed.

Lemma rooms_leave_room_ne client s k :
  k ≠ room (deref s client) → rooms (leave_room client s).1 !! k = rooms s !! k.
Proof.
  intros Hk. unfold leave_room. case_decide; cbn [fst]; [done|].
  cbn. by rewrite lookup_insert_ne.
Qed.

Lemma leave_room_events client s :
  (leave_room client s).2
  = if decide (room (deref s client) = "") then []
    else [Send (left_notice (room (deref s client)) (username (deref s client)))].
Proof. unfold leave_room. by case_decide. Qed.

Lemma room_slice_enter_room client r s k :
  room_slice (enter_room client r s) k
  = if decide (k = r) then room_slice s r ++ [client] else room_slice s k.
Proof.
  unfold enter_room, room_slice. cbn. case_decide as Hk.
  - subst k. by rewrite lookup_insert_eq.
  - by rewrite lookup_insert_ne.
Qed.

(** The two commands that succeed, in terms of the two helpers. *)
Lemma handleCommand_join message client s members :
  let parts := Split message space in
  let roomName := nth 1 parts "" in
  let c := conn (deref s client) in
  nth 0 parts "" = "/join" → 2 ≤ length parts →
  rooms s !! roomName = Some members →
  bannedUsers s !! RemoteAddr c = None →
  handleCommand message client s
  = (enter_room client roomName (leave_room client s).1,
     (leave_room client s).2 ++
     [Write c (msg_joined roomName) (writable s c);
      Send (joined_notice roomName (username (deref s client)))]).
Proof.
  intros parts roomName c Hcmd Hlen Hroom Hban. unfold handleCommand.
  fold parts. rewrite Hcmd. rewrite decide_True by done.
  replace (Nat.ltb (length parts) 2) with false by (symmetry; apply Nat.ltb_ge; lia).
  fold roomName c. rewrite Hroom, Hban.
  pose proof (leave_room_frame client s) as (_ & _ & Ho & Hb).
  pose proof (deref_leave_room client s client) as Hd.
  destruct (leave_room client s) as [s1 notice]. cbn [fst snd] in *.
  rewrite deref_enter_room_eq. cbn [username]. rewrite Hd.
  unfold conn_Write.
  by rewrite (writable_frame (enter_room client roomName s1) s c) by (cbn; rewrite ?Ho, ?Hb; done).
Qed.

Lemma handleCommand_create message client s :
  let parts := Split message space in
  let roomName := nth 1 parts "" in
  let c := conn (deref s client) in
  let s0 := with_rooms s (<[roomName := []]> (rooms s)) in
  nth 0 parts "" = "/create" → 2 ≤ length parts →
  rooms s !! roomName = None →
  bannedUsers s !! RemoteAddr c = None →
  handleCommand message client s
  = (enter_room client roomName (leave_room client s0).1,
     (leave_room client s0).2 ++
     [Write c (msg_created roomName) (writable s c);
      Send (created_notice roomName (username (deref s client)))]).
Proof.
  intros parts roomName c s0 Hcmd Hlen Hroom Hban. unfold handleCommand.
  fold parts. rewrite Hcmd. rewrite decide_False by done. rewrite decide_True by done.
  replace (Nat.ltb (length parts) 2) with false by (symmetry; apply Nat.ltb_ge; lia).
  fold roomName c. rewrite Hroom, Hban. fold s0.
  pose proof (leave_room_frame client s0) as (_ & _ & Ho & Hb).
  pose proof (deref_leave_room client s0 client) as Hd.
  destruct (leave_room client s0) as [s1 notice]. cbn [fst snd] in *.
  rewrite deref_enter_room_eq. cbn [username]. rewrite Hd.
  unfold conn_Write.
  by rewrite (writable_frame (enter_room client roomName s1) s c) by (cbn; rewrite ?Ho, ?Hb; done).
Qed.

(** C10: the room a [/join] or [/create] line names is the second
    space-separated token of the line and nothing else.  For every state
    [st σ] the server can reach, every session and every line [message],
    with [roomName] the second token of the line:
    - a line with the same first two tokens has the same outcome, whatever
      follows them ("/join a b" does what "/join a" does);
    - a [/join] line with at least two tokens, when the room [roomName]
      exists and the sender is not banned, joins [roomName]: that becomes
      the session's current room, the session is the last member of the
      slice stored under [roomName], and the answer and the notice name
      [roomName]; no error is written;
    - a [/create] line with at least two tokens, when no room [roomName]
      exists and the sender is not banned, creates [roomName] with the
      session as its only member and makes it the session's current room;
    - a room that the command adds to the directory, and a room that the
      command makes the session's current room, is the second token;
    - after the command no name in the directory and no session's current
      room contains a space. *)
Theorem room_name_is_second_token σ message client :
  reachable σ →
  let s := st σ in
  let parts := Split message space in
  let roomName := nth 1 parts "" in
  let cl := deref s client in
  let s' := (handleCommand message client s).1 in
  let evs := (handleCommand message client s).2 in
  (∀ other,
     nth 0 (Split other space) "" = nth 0 parts "" →
     nth 1 (Split other space) "" = nth 1 parts "" →
     Nat.ltb (length (Split other space)) 2 = Nat.ltb (length parts) 2 →
     handleCommand other client s = handleCommand message client s) ∧
  (nth 0 parts "" = "/join" → 2 ≤ length parts →
   is_Some (rooms s !! roomName) →
   bannedUsers s !! RemoteAddr (conn cl) = None →
   room (deref s' client) = roomName ∧
   (∃ members, rooms s' !! roomName = Some (members ++ [client])) ∧
   (∃ notice,
      evs = notice ++ [Write (conn cl) (msg_joined roomName) (writable s (conn cl));
                       Send (joined_notice roomName (username cl))])) ∧
  (nth 0 parts "" = "/create" → 2 ≤ length parts →
   rooms s !! roomName = None →
   bannedUsers s !! RemoteAddr (conn cl) = None →
   room (deref s' client) = roomName ∧
   rooms s' !! roomName = Some [client] ∧
   (∃ notice,
      evs = notice ++ [Write (conn cl) (msg_created roomName) (writable s (conn cl));
                       Send (created_notice roomName (username cl))])) ∧
  (∀ name,
     (rooms s !! name = None ∧ is_Some (rooms s' !! name)) ∨
     (room (deref s' client) = name ∧ room (deref s client) ≠ name) →
     name = roomName) ∧
  (∀ name,
     is_Some (rooms s' !! name) ∨ (∃ p, room (deref s' p) = name) →
     no_space name = true).
Proof.
  intros Hreach s parts roomName cl s' evs.
  pose proof (reachable_names_ok σ Hreach) as Hok. fold s in Hok.
  split_and!.
  - intros other. apply handleCommand_tokens.
  - intros Hcmd Hlen [members Hroom] Hban. unfold s', evs.
    rewrite (handleCommand_join message client s members) by done.
    fold parts roomName cl. cbn [fst snd]. split_and!.
    + by rewrite deref_enter_room_eq.
    + exists (room_slice (leave_room client s).1 roomName).
      by rewrite rooms_enter_room, lookup_insert_eq.
    + by exists (leave_room client s).2.
  - intros Hcmd Hlen Hroom Hban. unfold s', evs.
    rewrite (handleCommand_create message client s) by done.
    fold parts roomName cl. cbn [fst snd].
    set (s0 := with_rooms s (<[roomName := []]> (rooms s))).
    split_and!.
    + by rewrite deref_enter_room_eq.
    + rewrite rooms_enter_room, lookup_insert_eq. f_equal.
      rewrite room_slice_leave_room.
      assert (room_slice s0 roomName = []) as -> by apply room_slice_insert_eq.
      by case_decide.
    + by exists (leave_room client s0).2.
  - intros name Hname.
    destruct (handleCommand_cases message client s) as [E|[E|E]];
      fold s' parts roomName in E; rewrite E in Hname.
    + destruct Hname as [[Hn Hs]|[? ?]]; [|done]. rewrite Hn in Hs. by destruct Hs.
    + destruct Hname as [[Hn Hs]|[Hr _]].
      * rewrite rooms_enter_room in Hs.
        apply lookup_insert_is_Some' in Hs as [?|Hs]; [done|].
        apply rooms_leave_room_is_Some in Hs as [Hs|[Hne ->]].
        -- rewrite Hn in Hs. by destruct Hs.
        -- destruct (names_ok_deref s client Hok) as [_ Hex].
           specialize (Hex Hne). rewrite Hn in Hex. by destruct Hex.
      * by rewrite deref_enter_room_eq in Hr.
    + destruct Hname as [[Hn Hs]|[Hr _]].
      * rewrite rooms_enter_room in Hs.
        apply lookup_insert_is_Some' in Hs as [?|Hs]; [done|].
        apply rooms_leave_room_is_Some in Hs as [Hs|[Hne ->]].
        -- cbn in Hs. apply lookup_insert_is_Some' in Hs as [?|Hs]; [done|].
           rewrite Hn in Hs. by destruct Hs.
        -- change (deref (with_rooms s _) client) with (deref s client) in *.
           destruct (names_ok_deref s client Hok) as [_ Hex].
           specialize (Hex Hne). rewrite Hn in Hex. by destruct Hex.
      * by rewrite deref_enter_room_eq in Hr.
  - pose proof (names_ok_handleCommand message client s Hok) as Hok'. fold s' in Hok'.
    intros name [Hk|[p <-]].
    + by apply Hok'.
    + by apply names_ok_deref.
Qed.

Lemma room_name_is_second_token_witness :
  let s := st room_a in
  let message := "/join a b" in
  let parts := Split message space in
  let roomName := nth 1 parts "" in
  let cl := deref s 2 in
  let s' := (handleCommand message 2 s).1 in
  let evs := (handleCommand message 2 s).2 in
  roomName = "a" ∧
  handleCommand "/join a" 2 s = handleCommand message 2 s ∧
  room (deref s' 2) = roomName ∧
  (∃ members, rooms s' !! roomName = Some (members ++ [2])) ∧
  (∃ notice,
     evs = notice ++ [Write (conn cl) (msg_joined roomName) (writable s (conn cl));
                      Send (joined_notice roomName (username cl))]).
Proof.
  cbv zeta.
  destruct (room_name_is_second_token room_a "/join a b" 2 room_a_reachable)
    as (Htokens & Hjoin & _).
  split; [vm_compute; reflexivity|].
  split; [apply Htokens; vm_compute; reflexivity|].
  apply Hjoin.
  - vm_compute. reflexivity.
  - vm_compute. lia.
  - by_evaluation.
  - vm_compute. reflexivity.
Defined.

(** ** What a line from a session can and cannot change *)

(** Every command ends in one of three ways: an answer and nothing else, a
    join, or a create. *)
Lemma handleCommand_shape message client s :
  let roomName := nth 1 (Split message space) "" in
  let c := conn (deref s client) in
  let u := username (deref s client) in
  let s0 := with_rooms s (<[roomName := []]> (rooms s)) in
  (∃ reply, handleCommand message client s = (s, [conn_Write s c reply])) ∨
  (is_Some (rooms s !! roomName) ∧
   handleCommand message client s
   = (enter_room client roomName (leave_room client s).1,
      (leave_room client s).2 ++
      [Write c (msg_joined roomName) (writable s c); Send (joined_notice roomName u)])) ∨
  (rooms s !! roomName = None ∧
   handleCommand message client s
   = (enter_room client roomName (leave_room client s0).1,
      (leave_room client s0).2 ++
      [Write c (msg_created roomName) (writable s c); Send (created_notice roomName u)])).
Proof.
  intros roomName c u s0.
  destruct (decide (nth 0 (Split message space) "" = "/join")) as [Hj|Hj];
    [|destruct (decide (nth 0 (Split message space) "" = "/create")) as [Hc|Hc]].
  - destruct (Nat.ltb_spec (length (Split message space)) 2) as [Hlt|Hge].
    { left. eexists. unfold handleCommand. rewrite Hj, decide_True by done.
      by replace (Nat.ltb _ 2) with true by (symmetry; by apply Nat.ltb_lt). }
    destruct (rooms s !! roomName) as [members|] eqn:Hr.
    2:{ left. eexists. unfold handleCommand. rewrite Hj, decide_True by done.
        replace (Nat.ltb _ 2) with false by (symmetry; by apply Nat.ltb_ge).
        fold roomName. by rewrite Hr. }
    destruct (bannedUsers s !! RemoteAddr c) as [b|] eqn:Hb.
    { left. eexists. unfold handleCommand. rewrite Hj, decide_True by done.
      replace (Nat.ltb _ 2) with false by (symmetry; by apply Nat.ltb_ge).
      fold roomName c. by rewrite Hr, Hb. }
    right. left. split; [done|]. by apply (handleCommand_join message client s members).
  - destruct (Nat.ltb_spec (length (Split message space)) 2) as [Hlt|Hge].
    { left. eexists. unfold handleCommand. rewrite Hc, decide_False, decide_True by done.
      by replace (Nat.ltb _ 2) with true by (symmetry; by apply Nat.ltb_lt). }
    destruct (rooms s !! roomName) as [members|] eqn:Hr.
    { left. eexists. unfold handleCommand. rewrite Hc, decide_False, decide_True by done.
      replace (Nat.ltb _ 2) with false by (symmetry; by apply Nat.ltb_ge).
      fold roomName. by rewrite Hr. }
    destruct (bannedUsers s !! RemoteAddr c) as [b|] eqn:Hb.
    { left. eexists. unfold handleCommand. rewrite Hc, decide_False, decide_True by done.
      replace (Nat.ltb _ 2) with false by (symmetry; by apply Nat.ltb_ge).
      fold roomName c. by rewrite Hr, Hb. }
    right. right. split; [done|]. by apply (handleCommand_create message client s).
  - left. destruct (decide (nth 0 (Split message space) "" = "/help")) as [Hh|Hh];
      eexists; unfold handleCommand; rewrite !decide_False by done.
    + by rewrite decide_True by done.
    + done.
Qed.

Lemma written_to_leave_room client s : written_to (leave_room client s).2 = [].
Proof. rewrite leave_room_events. by case_decide. Qed.

Lemma closed_by_leave_room client s : closed_by (leave_room client s).2 = [].
Proof. rewrite leave_room_events. by case_decide. Qed.

Lemma length_sends_leave_room client s : length (sends (leave_room client s).2) ≤ 1.
Proof. rewrite leave_room_events. case_decide; cbn; lia. Qed.

(** X6: whatever the command, [handleCommand] writes exactly one line, to
    the connection of the session that sent it, closes no connection, and
    hands at most two notices to the router. *)
Theorem command_answers_its_sender message client s :
  let evs := (handleCommand message client s).2 in
  written_to evs = [conn (deref s client)] ∧
  closed_by evs = [] ∧
  length (sends evs) ≤ 2.
Proof.
  cbv zeta.
  destruct (handleCommand_shape message client s) as [[reply E]|[[_ E]|[_ E]]];
    rewrite E; cbn [snd].
  - cbn. split_and!; (done || lia).
  - unfold written_to, closed_by, sends. rewrite !omap_app.
    fold (written_to (leave_room client s).2) (closed_by (leave_room client s).2)
         (sends (leave_room client s).2).
    rewrite written_to_leave_room, closed_by_leave_room, List.length_app.
    pose proof (length_sends_leave_room client s). cbn. split_and!; (done || lia).
  - match goal with |- context [leave_room client ?t] => set (s0 := t) end.
    unfold written_to, closed_by, sends. rewrite !omap_app.
    fold (written_to (leave_room client s0).2) (closed_by (leave_room client s0).2)
         (sends (leave_room client s0).2).
    rewrite written_to_leave_room, closed_by_leave_room, List.length_app.
    pose proof (length_sends_leave_room client s0). cbn. split_and!; (done || lia).
Qed.

Lemma moved_frame client roomName s :
  let s' := enter_room client roomName (leave_room client s).1 in
  clients s' = clients s ∧ bannedUsers s' = bannedUsers s ∧
  open s' = open s ∧ broken s' = broken s ∧
  conn (deref s' client) = conn (deref s client) ∧
  username (deref s' client) = username (deref s client) ∧
  (∀ q, q ≠ client →
        deref s' q = deref s q ∧
        ∀ k, q ∈ room_slice s' k ↔ q ∈ room_slice s k).
Proof.
  intros s'. unfold s'.
  pose proof (leave_room_frame client s) as (Hc & Hb & Ho & Hbr).
  split_and!; try done.
  - by rewrite deref_enter_room_eq, deref_leave_room.
  - by rewrite deref_enter_room_eq, deref_leave_room.
  - intros q Hq. split; [by rewrite deref_enter_room_ne, deref_leave_room|].
    intros k. rewrite room_slice_enter_room.
    assert (∀ k', q ∈ room_slice (leave_room client s).1 k' ↔ q ∈ room_slice s k') as Hl.
    { intros k'. rewrite room_slice_leave_room. case_decide; [|done].
      by apply elem_of_removeClient_ne. }
    case_decide as Hk.
    + subst k. rewrite elem_of_app, list_elem_of_singleton, Hl. intuition.
    + apply Hl.
Qed.

(** ** What the router can and cannot change *)


(** A relation between states that holds across every pruning holds across
    the whole loop. *)
Lemma fanout_preserves (R : State → State → Prop) message r :
  (∀ s, R s s) →
  (∀ s1 s2 s3, R s1 s2 → R s2 s3 → R s1 s3) →
  (∀ s client, R s (pruned r client s)) →
  ∀ n i arr s, R s (fanout message r n i arr s).1.
Proof.
  intros Hrefl Htrans Hprune. induction n as [|n IH]; intros i arr s; cbn [fanout].
  { apply Hrefl. }
  destruct (arr !! i) as [client|]; [|apply Hrefl]. cbv zeta.
  destruct (writable s (conn (deref s client))).
  - specialize (IH (S i) arr s). by destruct (fanout message r n (S i) arr s).
  - match goal with |- context [fanout message r n (S i) ?a ?t] =>
      specialize (IH (S i) a t); destruct (fanout message r n (S i) a t) end.
    cbn [fst] in *. eapply Htrans; [apply (Hprune s client)|exact IH].
Qed.

Lemma fanout_sends_nothing message r n i arr s :
  sends (fanout message r n i arr s).2 = [].
Proof.
  revert i arr s. induction n as [|n IH]; intros i arr s; cbn [fanout]; [done|].
  destruct (arr !! i) as [client|]; [|done]. cbv zeta.
  destruct (writable s (conn (deref s client))).
  - specialize (IH (S i) arr s). by destruct (fanout message r n (S i) arr s).
  - match goal with |- context [fanout message r n (S i) ?a ?t] =>
      specialize (IH (S i) a t); destruct (fanout message r n (S i) a t) end.
    done.
Qed.

Lemma cut_sublist i (l : list ptr) : cut i l `sublist_of` l.
Proof. unfold cut. rewrite <-delete_take_drop. apply sublist_delete. Qed.

Lemma removeClient_sublist (l : list ptr) client : removeClient l client `sublist_of` l.
Proof. unfold removeClient. destruct (index_of l client); [apply cut_sublist|done]. Qed.


Lemma shrunk_refl s : shrunk s s.
Proof. by split_and!. Qed.

Lemma shrunk_trans s1 s2 s3 : shrunk s1 s2 → shrunk s2 s3 → shrunk s1 s3.
Proof.
  intros (H1 & H2 & H3 & H4 & H5 & H6) (G1 & G2 & G3 & G4 & G5 & G6).
  split_and!; try congruence.
  - intros x Hx. by apply H4, G4.
  - auto.
  - intros k. etrans; [apply G6|apply H6].
Qed.

Lemma shrunk_pruned r client s : shrunk s (pruned r client s).
Proof.
  unfold pruned. split_and!; cbn; try done.
  - intros x [Hx _]%elem_of_difference. done.
  - intros c p [_ ?]%lookup_delete_Some. done.
  - intros k. destruct (decide (r = k)) as [->|Hne].
    + unfold room_slice at 1. cbn. rewrite lookup_insert_eq. cbn.
      apply removeClient_sublist.
    + unfold room_slice at 1. cbn. by rewrite lookup_insert_ne.
Qed.

Lemma delivery_heap message s s' evs :
  handleBroadcast message s = Some (s', evs) → heap s' = heap s.
Proof.
  unfold handleBroadcast.
  destruct (strip_brackets _) as [r|]; [|done]. cbn. intros [= E].
  pose proof (fanout_preserves shrunk message r shrunk_refl shrunk_trans
                (λ t q, shrunk_pruned r q t) (length (room_slice s r)) 0 (room_slice s r) s) as Hs.
  rewrite E in Hs. by destruct Hs as (H1 & _).
Qed.

(** ** Invariants of the transition system *)

Lemma lobby_talking_reachable : reachable lobby_talking.
Proof. apply (played_reachable lobby_talking_trace); vm_compute; reflexivity. Qed.

Lemma handleConnection_line_fields now message client s :
  let s' := (handleConnection_line now message client s).1 in
  clients s' = clients s ∧ bannedUsers s' = bannedUsers s ∧
  open s' = open s ∧ broken s' = broken s.
Proof.
  cbv zeta. unfold handleConnection_line.
  destruct (HasPrefix message "/"); [|by case_decide].
  destruct (handleCommand_shape message client s) as [[reply E]|[[_ E]|[_ E]]];
    rewrite E; cbn [fst]; [done| |].
  - by destruct (moved_frame client (nth 1 (Split message space) "") s)
      as (?&?&?&?&_).
  - match goal with |- context [leave_room client ?t] =>
      by destruct (moved_frame client (nth 1 (Split message space) "") t) as (?&?&?&?&_)
    end.
Qed.

Lemma handleConnection_readerr_fields client s :
  let c := conn (deref s client) in
  let s' := (handleConnection_readerr client s).1 in
  clients s' = delete c (clients s) ∧ open s' = open s ∖ {[c]} ∧
  bannedUsers s' = bannedUsers s ∧ broken s' = broken s ∧ heap s' = heap s.
Proof.
  cbv zeta. unfold handleConnection_readerr.
  pose proof (leave_room_frame client s) as (Hc & Hb & Ho & Hbr).
  pose proof (heap_leave_room client s) as Hh.
  destruct (leave_room client s) as [s1 notice]. cbn [fst] in *. cbn.
  by rewrite Hc, Hb, Ho, Hbr, Hh.
Qed.

(** *** Rooms are never deleted *)

Lemma dom_rooms_leave_room client s :
  dom (rooms s) ⊆ dom (rooms (leave_room client s).1).
Proof.
  unfold leave_room. case_decide; cbn [fst]; [done|]. cbn.
  rewrite dom_insert_L. apply union_subseteq_r.
Qed.

Lemma dom_rooms_enter_room client r s :
  dom (rooms s) ⊆ dom (rooms (enter_room client r s)).
Proof. rewrite rooms_enter_room, dom_insert_L. apply union_subseteq_r. Qed.

Lemma dom_rooms_handleCommand message client s :
  dom (rooms s) ⊆ dom (rooms (handleCommand message client s).1).
Proof.
  destruct (handleCommand_shape message client s) as [[reply E]|[[_ E]|[_ E]]];
    rewrite E; cbn [fst]; [done| |].
  - etrans; [apply (dom_rooms_leave_room client)|apply dom_rooms_enter_room].
  - etrans; [|apply dom_rooms_enter_room].
    etrans; [|apply dom_rooms_leave_room]. cbn.
    rewrite dom_insert_L. apply union_subseteq_r.
Qed.

Lemma dom_rooms_kickUser ks c s :
  dom (rooms s) ⊆ dom (rooms (kickUser ks c s).1).
Proof.
  induction ks as [|k ks IH]; cbn [kickUser]; [done|].
  destruct (find_conn s c (room_slice s k)) as [[i client]|]; [|done].
  cbn. rewrite !dom_insert_L. set_solver.
Qed.

Lemma dom_rooms_fanout message r n i arr s :
  dom (rooms s) ⊆ dom (rooms (fanout message r n i arr s).1).
Proof.
  apply (fanout_preserves (λ s s', dom (rooms s) ⊆ dom (rooms s')) message r).
  - done.
  - intros s1 s2 s3 ??. by etrans.
  - clear. intros s client. unfold pruned. cbn.
    rewrite dom_insert_L. apply union_subseteq_r.
Qed.

(** X10: no action ever deletes a room: whatever happens next, every room
    of the directory is still in the directory afterwards, also when its
    last member has left. *)
Theorem rooms_are_never_deleted a σ :
  dom (rooms (st σ)) ⊆ dom (rooms (st (do a σ))).
Proof.
  destruct a as [c|c client|now message client|client|i|cs ks ip|cs ks ip|c]; cbn [do].
  - done.
  - unfold handleConnection_start. cbn.
    by destruct (bannedUsers (st σ) !! RemoteAddr c).
  - unfold handleConnection_line.
    destruct (HasPrefix message "/"); [|by case_decide].
    pose proof (dom_rooms_handleCommand message client (st σ)).
    by destruct (handleCommand message client (st σ)).
  - unfold handleConnection_readerr.
    pose proof (dom_rooms_leave_room client (st σ)).
    by destruct (leave_room client (st σ)).
  - destruct (pending σ !! i) as [message|]; cbn; [|done].
    unfold handleBroadcast. destruct (strip_brackets _) as [r|]; cbn; [|done].
    pose proof (dom_rooms_fanout message r (length (room_slice (st σ) r)) 0
                  (room_slice (st σ) r) (st σ)) as H.
    by destruct (fanout message r _ 0 _ (st σ)).
  - cbn [st]. unfold adminConsole_kick. destruct (List.find _ cs); [|done].
    apply dom_rooms_kickUser.
  - cbn [st]. unfold adminConsole_ban, banUser. destruct (List.find _ cs); [|done].
    match goal with |- context [kickUser ks c ?t] =>
      apply (dom_rooms_kickUser ks c t) end.
  - done.
Qed.

(** *** Every pending message can be delivered *)

Lemma addressed_handleBroadcast message s :
  addressed message → is_Some (handleBroadcast message s).
Proof.
  intros (r & rest & -> & Hr). unfold handleBroadcast.
  rewrite room_of_line by done. cbn. eauto.
Qed.

Lemma addressed_chat_line r now u message :
  no_space r = true → addressed (chat_line r now u message).
Proof.
  intros Hr. exists r, (now +:+ " - " +:+ u +:+ ": " +:+ message +:+ nl).
  split; [reflexivity|done].
Qed.

Lemma addressed_left_notice r u : no_space r = true → addressed (left_notice r u).
Proof.
  intros Hr. exists r, ("Notice: " +:+ dq +:+ u +:+ dq +:+ " left the chat room." +:+ nl).
  split; [reflexivity|done].
Qed.

Lemma addressed_joined_notice r u : no_space r = true → addressed (joined_notice r u).
Proof.
  intros Hr. exists r, ("Notice: " +:+ dq +:+ u +:+ dq +:+ " joined the chat room." +:+ nl).
  split; [reflexivity|done].
Qed.

Lemma addressed_created_notice r u : no_space r = true → addressed (created_notice r u).
Proof.
  intros Hr.
  exists r, ("Notice: " +:+ dq +:+ u +:+ dq +:+ " created and joined the chat room." +:+ nl).
  split; [reflexivity|done].
Qed.

Lemma addressed_leave_room client s :
  names_ok s → Forall addressed (sends (leave_room client s).2).
Proof.
  intros Hok. rewrite leave_room_events. case_decide; cbn; [done|].
  repeat constructor. apply addressed_left_notice. by apply names_ok_deref.
Qed.

Lemma addressed_handleConnection_line now message client s :
  names_ok s → Forall addressed (sends (handleConnection_line now message client s).2).
Proof.
  intros Hok. unfold handleConnection_line.
  destruct (HasPrefix message "/").
  - destruct (handleCommand_shape message client s) as [[reply E]|[[_ E]|[_ E]]];
      rewrite E; cbn [snd].
    + done.
    + unfold sends. rewrite omap_app. apply Forall_app. split.
      * by apply addressed_leave_room.
      * cbn. repeat constructor. apply addressed_joined_notice, nth_Split_no_space.
    + unfold sends. rewrite omap_app. apply Forall_app. split.
      * apply addressed_leave_room. apply names_ok_insert_room; [done|].
        apply nth_Split_no_space.
      * cbn. repeat constructor. apply addressed_created_notice, nth_Split_no_space.
  - case_decide; cbn; [done|]. repeat constructor.
    apply addressed_chat_line. by apply names_ok_deref.
Qed.

Lemma pending_addressed σ : reachable σ → Forall addressed (pending σ).
Proof.
  induction 1 as [|σ a σ' Hreach IH [_ ->]]; [done|].
  pose proof (reachable_names_ok σ Hreach) as Hok.
  destruct a as [c|c client|now message client|client|i|cs ks ip|cs ks ip|c]; cbn [do].
  - done.
  - unfold handleConnection_start. cbn.
    destruct (bannedUsers (st σ) !! RemoteAddr c); cbn; by rewrite app_nil_r.
  - pose proof (addressed_handleConnection_line now message client (st σ) Hok).
    destruct (handleConnection_line now message client (st σ)). cbn.
    apply Forall_app. by split.
  - unfold handleConnection_readerr.
    pose proof (addressed_leave_room client (st σ) Hok).
    destruct (leave_room client (st σ)) as [s1 notice]. cbn in *.
    apply Forall_app. split; [done|]. unfold sends in *. rewrite omap_app.
    apply Forall_app. split; [done|]. done.
  - destruct (pending σ !! i) as [message|]; cbn; [|done].
    destruct (handleBroadcast message (st σ)) as [[s' evs]|]; [|done]. cbn.
    by apply Forall_delete.
  - done.
  - done.
  - done.
Qed.

(** X11: the router never panics on what the handlers sent.  In every state
    the server can reach, each message that is waiting for the router
    starts with a bracketed room name, so the slice expression of line 163
    is within bounds and the message can be delivered. *)
Theorem pending_messages_are_deliverable σ i :
  reachable σ → i < length (pending σ) → ready (Deliver i) σ.
Proof.
  intros Hreach Hi. cbn [ready].
  destruct (lookup_lt_is_Some_2 (pending σ) i Hi) as [message Hm].
  rewrite Hm. cbn. apply addressed_handleBroadcast.
  pose proof (pending_addressed σ Hreach) as Hall.
  rewrite Forall_forall in Hall. apply Hall. by eapply list_elem_of_lookup_2.
Qed.

Lemma pending_messages_are_deliverable_witness : ready (Deliver 0) lobby_talking.
Proof.
  apply (pending_messages_are_deliverable lobby_talking 0 lobby_talking_reachable).
  vm_compute. lia.
Defined.

(** ** The room directory and the sessions agree *)

Lemma room_slice_Some s k l : rooms s !! k = Some l → room_slice s k = l.
Proof. intros H. unfold room_slice. by rewrite H. Qed.

Lemma room_slice_elem s k q :
  q ∈ room_slice s k → ∃ l, rooms s !! k = Some l ∧ q ∈ l.
Proof.
  unfold room_slice. destruct (rooms s !! k) as [l|]; cbn; [eauto|].
  by intros ?%elem_of_nil.
Qed.

Lemma NoDup_cut i (l : list ptr) : NoDup l → NoDup (cut i l).
Proof. intros H. eapply sublist_NoDup; [done|apply cut_sublist]. Qed.

Lemma NoDup_removeClient (l : list ptr) client : NoDup l → NoDup (removeClient l client).
Proof. intros H. eapply sublist_NoDup; [done|apply removeClient_sublist]. Qed.

Lemma not_elem_of_removeClient (l : list ptr) client :
  NoDup l → client ∉ removeClient l client.
Proof.
  intros Hnd. unfold removeClient.
  destruct (index_of l client) as [i|] eqn:Hi; [|by apply index_of_None].
  apply not_elem_of_cut; [by apply index_of_Some|].
  intros j Hj. eapply NoDup_lookup; [done|by apply index_of_Some|done].
Qed.

(** Under [agree] a listed client is listed in the room of its field. *)
Lemma agree_listed s k q :
  agree s → q ∈ room_slice s k →
  is_Some (heap s !! q) ∧ room (deref s q) = k ∧ k ≠ "".
Proof.
  intros (HA & HB & _ & _) (l & Hl & Hq)%room_slice_elem.
  destruct (HB k l q Hl Hq) as [? ?]. split_and!; [done|done|].
  intros ->. congruence.
Qed.

Lemma agree_leave_room client s :
  agree s →
  agree (leave_room client s).1 ∧ ∀ k, client ∉ room_slice (leave_room client s).1 k.
Proof.
  intros Hag. pose proof Hag as (HA & HB & HC & HD).
  unfold leave_room. destruct (decide (room (deref s client) = "")) as [He|Hne]; cbn [fst].
  - split; [done|]. intros k Hk.
    destruct (agree_listed s k client Hag Hk) as (_ & Hr & Hk'). congruence.
  - set (old := room (deref s client)) in *.
    assert (∀ k l, rooms (with_rooms s (<[old := removeClient (room_slice s old) client]>
                                          (rooms s))) !! k = Some l →
                   (k = old ∧ l = removeClient (room_slice s old) client) ∨
                   (k ≠ old ∧ rooms s !! k = Some l)) as Hcases.
    { intros k l. cbn. intros [[<- <-]|[? ?]]%lookup_insert_Some; auto. }
    split; [split_and!|].
    + cbn. by rewrite lookup_insert_ne.
    + intros k l q Hl Hq. change (deref (with_rooms s _) q) with (deref s q).
      change (heap (with_rooms s _)) with (heap s).
      destruct (Hcases k l Hl) as [[-> ->]|[Hk Hl']].
      * apply elem_of_removeClient in Hq.
        destruct (agree_listed s old q Hag Hq) as (? & ? & _). done.
      * by apply (HB k l q).
    + intros k l Hl. destruct (Hcases k l Hl) as [[-> ->]|[Hk Hl']].
      * apply NoDup_removeClient. unfold room_slice.
        destruct (rooms s !! old) as [l0|] eqn:E; cbn; [by eapply HC|constructor].
      * by eapply HC.
    + exact HD.
    + intros k Hk. destruct (decide (k = old)) as [->|Hko].
      * rewrite room_slice_insert_eq in Hk. revert Hk. apply not_elem_of_removeClient.
        unfold room_slice. destruct (rooms s !! old) as [l0|] eqn:E; cbn;
          [by eapply HC|constructor].
      * rewrite room_slice_insert_ne in Hk by done.
        destruct (agree_listed s k client Hag Hk) as (_ & Hr & _). done.
Qed.

Lemma agree_enter_room client r s :
  agree s → r ≠ "" → is_Some (heap s !! client) →
  (∀ k, client ∉ room_slice s k) →
  agree (enter_room client r s).
Proof.
  intros Hag Hr [cl Hcl] Hout. pose proof Hag as (HA & HB & HC & HD).
  assert (deref s client = cl) as Hd by (unfold deref; by rewrite Hcl).
  assert (∀ q, q ≠ client →
               heap (enter_room client r s) !! q = heap s !! q) as Hheap.
  { intros q Hq. cbn. by rewrite lookup_insert_ne. }
  assert (∀ k l, rooms (enter_room client r s) !! k = Some l →
                 (k = r ∧ l = room_slice s r ++ [client]) ∨
                 (k ≠ r ∧ rooms s !! k = Some l)) as Hcases.
  { intros k l. rewrite rooms_enter_room.
    intros [[<- <-]|[? ?]]%lookup_insert_Some; auto. }
  split_and!.
  - rewrite rooms_enter_room. by rewrite lookup_insert_ne.
  - intros k l q Hl Hq.
    destruct (decide (q = client)) as [->|Hne].
    + rewrite deref_enter_room_eq. cbn [room]. split.
      * cbn. rewrite lookup_insert_eq. eauto.
      * destruct (Hcases k l Hl) as [[-> ->]|[Hk Hl']]; [done|].
        exfalso. apply (Hout k). by rewrite (room_slice_Some s k l).
    + rewrite deref_enter_room_ne, Hheap by done.
      destruct (Hcases k l Hl) as [[-> ->]|[Hk Hl']].
      * apply elem_of_app in Hq as [Hq|Hq%list_elem_of_singleton]; [|done].
        destruct (agree_listed s r q Hag Hq) as (? & ? & _). done.
      * by apply (HB k l q).
  - intros k l Hl. destruct (Hcases k l Hl) as [[-> ->]|[Hk Hl']]; [|by eapply HC].
    apply NoDup_app. split_and!.
    + unfold room_slice. destruct (rooms s !! r) as [l0|] eqn:E; cbn;
        [by eapply HC|constructor].
    + intros x Hx ->%list_elem_of_singleton. by apply (Hout r).
    + apply NoDup_singleton.
  - intros p q cp cq. cbn. rewrite Hd.
    intros [[<- <-]|[Hp Hp']]%lookup_insert_Some [[<- <-]|[Hq Hq']]%lookup_insert_Some;
      cbn; intros Hconn.
    + done.
    + by apply (HD client q cl cq).
    + by apply (HD p client cp cl).
    + by apply (HD p q cp cq).
Qed.

(** A line that names the empty room although there is none is only
    answered. *)
Lemma handleCommand_no_empty_room message client s :
  nth 1 (Split message space) "" = "" →
  names_empty_room message = false →
  ∃ reply, handleCommand message client s
           = (s, [conn_Write s (conn (deref s client)) reply]).
Proof.
  intros He Ht. unfold names_empty_room in Ht. rewrite He in Ht.
  rewrite (bool_decide_eq_true_2 ("" = "")) in Ht by done.
  rewrite andb_true_r in Ht. apply andb_false_iff in Ht.
  unfold handleCommand.
  destruct (decide (nth 0 (Split message space) "" = "/join")) as [Hj|Hj];
    [|destruct (decide (nth 0 (Split message space) "" = "/create")) as [Hc|Hc]].
  - destruct Ht as [Ht|Ht].
    { rewrite bool_decide_eq_true_2 in Ht by done. done. }
    apply negb_false_iff in Ht. rewrite Ht. by eexists.
  - destruct Ht as [Ht|Ht].
    { rewrite (bool_decide_eq_true_2 (_ = "/create")) in Ht by done.
      by rewrite orb_true_r in Ht. }
    apply negb_false_iff in Ht. rewrite Ht. by eexists.
  - destruct (decide (nth 0 (Split message space) "" = "/help")); by eexists.
Qed.

Lemma agree_handleCommand message client s :
  agree s → is_Some (heap s !! client) → names_empty_room message = false →
  agree (handleCommand message client s).1.
Proof.
  intros Hag Hcl Ht. pose proof Hag as (HA & HB & HC & HD).
  destruct (decide (nth 1 (Split message space) "" = "")) as [He|Hne].
  { destruct (handleCommand_no_empty_room message client s He Ht) as [reply ->]. done. }
  destruct (handleCommand_shape message client s) as [[reply E]|[[_ E]|[Hnone E]]];
    rewrite E; cbn [fst]; [done| |].
  - destruct (agree_leave_room client s Hag) as [Hag' Hout].
    apply agree_enter_room; [done|done| |done].
    by rewrite heap_leave_room.
  - match goal with |- context [leave_room client ?t] => set (s0 := t) end.
    assert (agree s0) as Hag0.
    { split_and!.
      - cbn. by rewrite lookup_insert_ne.
      - intros k l q. cbn. intros [[<- <-]|[? Hl]]%lookup_insert_Some Hq.
        + by apply elem_of_nil in Hq.
        + by apply (HB k l q).
      - intros k l. cbn. intros [[<- <-]|[? Hl]]%lookup_insert_Some.
        + constructor.
        + by eapply HC.
      - exact HD. }
    destruct (agree_leave_room client s0 Hag0) as [Hag' Hout].
    apply agree_enter_room; [done|done| |done].
    by rewrite heap_leave_room.
Qed.

Lemma agree_frame s s' :
  rooms s' = rooms s → heap s' = heap s → agree s → agree s'.
Proof.
  intros Hr Hh (HA & HB & HC & HD). unfold agree, deref. rewrite Hr, Hh. by split_and!.
Qed.

Lemma agree_handleConnection_readerr client s :
  agree s → agree (handleConnection_readerr client s).1.
Proof.
  intros Hag. unfold handleConnection_readerr.
  destruct (agree_leave_room client s Hag) as [Hag' _].
  destruct (leave_room client s) as [s1 notice]. cbn [fst] in *.
  by eapply agree_frame; [| |exact Hag'].
Qed.

Lemma agree_pruned r client s :
  agree s → is_Some (rooms s !! r) → agree (pruned r client s) ∧ is_Some (rooms (pruned r client s) !! r).
Proof.
  intros Hag [l Hl]. pose proof Hag as (HA & HB & HC & HD).
  assert (r ≠ "") as Hr by (intros ->; congruence).
  unfold pruned. cbn. split; [|by rewrite lookup_insert_eq].
  assert (room_slice (with_clients (with_open s (open s ∖ {[conn (deref s client)]}))
                        (delete (conn (deref s client)) (clients s))) r = l) as -> .
  { by apply (room_slice_Some s). }
  split_and!; cbn.
  - by rewrite lookup_insert_ne.
  - intros k l' q [[<- <-]|[? Hl']]%lookup_insert_Some Hq.
    + apply elem_of_removeClient in Hq. by apply (HB r l q).
    + by apply (HB k l' q).
  - intros k l' [[<- <-]|[? Hl']]%lookup_insert_Some.
    + apply NoDup_removeClient. by eapply HC.
    + by eapply HC.
  - exact HD.
Qed.

Lemma agree_handleBroadcast message s s' evs :
  agree s → handleBroadcast message s = Some (s', evs) → agree s'.
Proof.
  intros Hag. unfold handleBroadcast.
  destruct (strip_brackets _) as [r|]; [|done]. cbn. intros [= E].
  destruct (rooms s !! r) as [l|] eqn:Hl.
  - pose proof (fanout_preserves
                  (λ s s', agree s ∧ is_Some (rooms s !! r) →
                           agree s' ∧ is_Some (rooms s' !! r)) message r) as H.
    specialize (H (λ _ h, h) (λ _ _ _ h1 h2 h, h2 (h1 h))).
    specialize (H (λ t q h, agree_pruned r q t (proj1 h) (proj2 h))).
    specialize (H (length (room_slice s r)) 0 (room_slice s r) s).
    rewrite E in H. cbn [fst] in H. apply H. split; [done|by rewrite Hl].
  - unfold room_slice in E. rewrite Hl in E. cbn in E. by injection E as <- _.
Qed.

Lemma agree_kickUser ks c s : agree s → agree (kickUser ks c s).1.
Proof.
  intros Hag. pose proof Hag as (HA & HB & HC & HD).
  induction ks as [|k ks IH]; cbn [kickUser]; [done|].
  destruct (find_conn s c (room_slice s k)) as [[i client]|] eqn:E; [|done].
  cbn [fst]. apply find_conn_Some in E as (Hi & _ & _).
  assert (client ∈ room_slice s k) as Hin by (by eapply list_elem_of_lookup_2).
  destruct (room_slice_elem s k client Hin) as (l & Hl & _).
  rewrite (room_slice_Some s k l Hl) in *.
  destruct (HB k l client Hl Hin) as [[cl Hcl] Hroom]. rewrite Hroom, insert_insert_eq.
  assert (k ≠ "") as Hk by (intros ->; congruence).
  assert (client ∉ cut i l) as Hout.
  { apply not_elem_of_cut; [done|]. intros j Hj. by eapply NoDup_lookup; [eapply HC|..]. }
  set (s1 := with_rooms s (<[k := cut i l]> (rooms s))).
  assert (∀ q, q ≠ client → deref (set_room client "" s1) q = deref s q) as Hd.
  { intros q Hq. by rewrite deref_set_room_ne. }
  split_and!.
  - cbn. by rewrite lookup_insert_ne.
  - intros k' l' q. cbn -[deref]. intros [[<- <-]|[Hk' Hl']]%lookup_insert_Some Hq.
    + assert (q ≠ client) as Hne by (intros ->; done).
      rewrite Hd, lookup_insert_ne by done. apply (HB k l q Hl). by eapply elem_of_cut.
    + assert (q ≠ client) as Hne.
      { intros ->. destruct (HB k' l' client Hl' Hq) as [_ ?]. congruence. }
      rewrite Hd, lookup_insert_ne by done. by apply (HB k' l' q).
  - intros k' l'. cbn. intros [[<- <-]|[Hk' Hl']]%lookup_insert_Some.
    + apply NoDup_cut. by eapply HC.
    + by eapply HC.
  - intros p q cp cq. cbn. unfold deref. cbn. rewrite Hcl. cbn.
    intros [[<- <-]|[Hp Hp']]%lookup_insert_Some [[<- <-]|[Hq Hq']]%lookup_insert_Some;
      cbn; intros Hconn.
    + done.
    + by apply (HD client q cl cq).
    + by apply (HD p client cp cl).
    + by apply (HD p q cp cq).
Qed.

Lemma agree_banUser ks c s : agree s → agree (banUser ks c s).1.
Proof.
  intros Hag. unfold banUser. apply agree_kickUser.
  by eapply agree_frame; [| |exact Hag].
Qed.

(** Sessions are never freed. *)
Lemma heap_grows_kickUser ks c s p :
  is_Some (heap s !! p) → is_Some (heap (kickUser ks c s).1 !! p).
Proof.
  intros Hp. induction ks as [|k ks IH]; cbn [kickUser]; [done|].
  destruct (find_conn s c (room_slice s k)) as [[i client]|]; [|done].
  cbn. apply lookup_insert_is_Some'. by right.
Qed.

Lemma heap_grows_handleConnection_line now message client s p :
  is_Some (heap s !! p) → is_Some (heap (handleConnection_line now message client s).1 !! p).
Proof.
  intros Hp. unfold handleConnection_line.
  destruct (HasPrefix message "/"); [|by case_decide].
  destruct (handleCommand_shape message client s) as [[reply E]|[[_ E]|[_ E]]];
    rewrite E; cbn [fst]; [done| |].
  - cbn. apply lookup_insert_is_Some'. right. by rewrite heap_leave_room.
  - cbn. apply lookup_insert_is_Some'. right. by rewrite heap_leave_room.
Qed.

Lemma consistent_do a σ :
  ready a σ → tidy a = true → consistent σ → consistent (do a σ).
Proof.
  intros Hready Htidy [Hag Hh]. pose proof Hag as (HA & HB & HC & HD).
  destruct a as [c|c client|now message client|client|i|cs ks ip|cs ks ip|c];
    cbn [do ready tidy] in *.
  - split; [|done]. by eapply agree_frame; [| |exact Hag].
  - destruct Hready as (_ & Hfresh & Hnew).
    assert (agree (with_clients
                     (with_heap (st σ)
                        (<[client := mkClient c "Anonymous" ""]> (heap (st σ))))
                     (<[c := client]> (clients (st σ))))) as Hag'.
    { split_and!; cbn.
      - done.
      - intros k l q Hl Hq. destruct (HB k l q Hl Hq) as [[cq Hq'] Hr].
        assert (q ≠ client) as Hne by (intros ->; congruence).
        unfold deref. cbn. rewrite lookup_insert_ne by done. split; [by eauto|done].
      - done.
      - intros p q cp cq.
        intros [[<- <-]|[Hp Hp']]%lookup_insert_Some [[<- <-]|[Hq Hq']]%lookup_insert_Some;
          cbn; intros Hconn.
        + done.
        + exfalso. by apply (Hfresh q cq Hq').
        + exfalso. by apply (Hfresh p cp Hp').
        + by apply (HD p q cp cq). }
    unfold handleConnection_start. cbn.
    destruct (bannedUsers (st σ) !! RemoteAddr c); cbn; split.
    + by eapply agree_frame; [| |exact Hag'].
    + intros p Hp. apply lookup_insert_is_Some'. right. by apply Hh.
    + done.
    + intros p [->%elem_of_singleton|Hp]%elem_of_union; apply lookup_insert_is_Some'.
      * by left.
      * right. by apply Hh.
  - destruct Hready as [Hin _]. apply negb_true_iff in Htidy.
    assert (agree (handleConnection_line now message client (st σ)).1) as Hag'.
    { unfold handleConnection_line. destruct (HasPrefix message "/").
      - apply agree_handleCommand; [done|by apply Hh|done].
      - by case_decide. }
    pose proof (λ p, heap_grows_handleConnection_line now message client (st σ) p) as Hg.
    destruct (handleConnection_line now message client (st σ)) as [s' evs].
    split; [done|]. intros p Hp. cbn. apply Hg. by apply Hh.
  - pose proof (agree_handleConnection_readerr client (st σ) Hag) as Hag'.
    pose proof (handleConnection_readerr_fields client (st σ)) as (_ & _ & _ & _ & Hheap).
    destruct (handleConnection_readerr client (st σ)) as [s' evs]. cbn [fst st] in *.
    split; [done|]. cbn. rewrite Hheap. intros p [Hp _]%elem_of_difference. by apply Hh.
  - destruct (pending σ !! i) as [message|]; cbn; [|done].
    destruct (handleBroadcast message (st σ)) as [[s' evs]|] eqn:E; [|done].
    split; [by eapply agree_handleBroadcast|]. cbn.
    rewrite (delivery_heap message (st σ) s' evs E). done.
  - done.
  - done.
  - split; [|done]. by eapply agree_frame; [| |exact Hag].
Qed.

Lemma agree_listed_once s client cl :
  agree s → heap s !! client = Some cl → listed_once s (conn cl) client.
Proof.
  intros Hag Hcl. pose proof Hag as (HA & HB & HC & HD).
  assert (deref s client = cl) as Hd by (unfold deref; by rewrite Hcl).
  split.
  - intros k q Hq Hconn.
    destruct (agree_listed s k q Hag Hq) as ([cq Hcq] & Hr & _).
    assert (deref s q = cq) as Hdq by (unfold deref; by rewrite Hcq).
    assert (q = client) as -> by (apply (HD q client cq cl); congruence).
    split; [done|congruence].
  - intros i j Hi Hj.
    destruct (rooms s !! room (deref s client)) as [l|] eqn:Hl.
    + rewrite (room_slice_Some s _ l Hl) in Hi, Hj. by eapply NoDup_lookup; [eapply HC|..].
    + unfold room_slice in Hi. by rewrite Hl in Hi.
Qed.

Lemma consistent_play tr σ :
  consistent σ → playable tr σ = true → forallb tidy tr = true →
  consistent (play tr σ).
Proof.
  revert σ. induction tr as [|a tr IH]; intros σ Hc; cbn [play playable forallb]; [done|].
  intros [Ha Htr]%andb_true_iff [Ht Hts]%andb_true_iff.
  apply IH; [|done|done]. apply consistent_do; [|done|done].
  by apply bool_decide_eq_true_1 in Ha.
Qed.

Lemma consistent_boot : consistent boot.
Proof.
  split; [split_and!|]; cbn.
  - done.
  - intros k l q. by rewrite lookup_empty.
  - intros k l. by rewrite lookup_empty.
  - intros p q cp cq. by rewrite lookup_empty.
  - intros p Hp. by apply elem_of_empty in Hp.
Qed.

(** X12: on the runs that the mutex serialises (connections, input lines,
    read errors and deliveries in any order, without a kick or a ban from
    the console, which take no lock), as long as nobody sends a [/join] or
    [/create] line whose room name is empty, the room directory and the
    sessions agree in every state the server gets to: no room has the
    empty name, whoever is listed in a room is a session whose current room
    is that room, no room lists a session twice, and two sessions never
    share a connection.  So every session is listed at most once, and only
    in its current room. *)
Theorem tidy_runs_keep_rooms_and_sessions_in_step tr :
  playable tr boot = true →
  forallb tidy tr = true →
  consistent (play tr boot) ∧
  ∀ client cl, heap (st (play tr boot)) !! client = Some cl →
               listed_once (st (play tr boot)) (conn cl) client.
Proof.
  intros Hp Ht.
  pose proof (consistent_play tr boot consistent_boot Hp Ht) as Hc.
  split; [done|]. intros client cl Hcl. apply agree_listed_once; [apply Hc|done].
Qed.

Lemma tidy_runs_keep_rooms_and_sessions_in_step_witness :
  consistent (play lobby3_alice_gone_trace boot) ∧
  ∀ client cl, heap (st (play lobby3_alice_gone_trace boot)) !! client = Some cl →
               listed_once (st (play lobby3_alice_gone_trace boot)) (conn cl) client.
Proof.
  apply (tidy_runs_keep_rooms_and_sessions_in_step lobby3_alice_gone_trace).
  - vm_compute. reflexivity.
  - vm_compute. reflexivity.
Defined.

(** The example systems are outcomes of such runs. *)
Lemma played_agree tr σ :
  play tr boot = σ → playable tr boot = true → forallb tidy tr = true → agree (st σ).
Proof. intros <- Hp Ht. by apply (consistent_play tr boot consistent_boot Hp Ht). Qed.


Lemma agree_lobby : agree (st lobby).
Proof. apply (played_agree lobby_trace); vm_compute; reflexivity. Qed.

Lemma agree_lobby3_alice_gone : agree (st lobby3_alice_gone).
Proof. apply (played_agree lobby3_alice_gone_trace); vm_compute; reflexivity. Qed.

Lemma agree_lobby4_bob_gone : agree (st lobby4_bob_gone).
Proof. apply (played_agree lobby4_bob_gone_trace); vm_compute; reflexivity. Qed.

(** ** Where the room directory and the sessions agree

    The statements of this section say what happens to rooms other than
    the one a step writes.  They are stated for states in which directory
    and sessions agree: there every slice of the directory is stored under
    the key it was read from, so that no two entries share cells. *)

Lemma names_empty_room_false message :
  nth 1 (Split message space) "" ≠ "" → names_empty_room message = false.
Proof.
  intros Hne. unfold names_empty_room.
  rewrite (bool_decide_eq_false_2 (nth 1 (Split message space) "" = "")) by done.
  apply andb_false_r.
Qed.



(** X5: where directory and sessions agree, a [/create] of a room that does
    not exist, by a session that is not banned, adds the room with the
    session as its only member and makes it the session's current room;
    the session is taken out of the room it was in, and no other room
    changes.  The session is told "Created and joined room ..." on its own
    connection.  Unless the new name is empty, directory and sessions
    still agree. *)
Theorem create_makes_a_room_of_one message client cl s :
  let parts := Split message space in
  let roomName := nth 1 parts "" in
  let s' := (handleCommand message client s).1 in
  agree s →
  heap s !! client = Some cl →
  nth 0 parts "" = "/create" → 2 ≤ length parts →
  rooms s !! roomName = None →
  bannedUsers s !! RemoteAddr (conn cl) = None →
  deref s' client = mkClient (conn cl) (username cl) roomName ∧
  rooms s' !! roomName = Some [client] ∧
  (∀ k, k ≠ roomName →
        room_slice s' k
        = if decide (room cl ≠ "" ∧ k = room cl)
          then removeClient (room_slice s k) client else room_slice s k) ∧
  (handleCommand message client s).2
  = (if decide (room cl = "") then []
     else [Send (left_notice (room cl) (username cl))]) ++
    [Write (conn cl) (msg_created roomName) (writable s (conn cl));
     Send (created_notice roomName (username cl))] ∧
  (roomName ≠ "" → agree s').
Proof.
  intros parts roomName s' Hag Hcl Hcmd Hlen Hroom Hban.
  assert (deref s client = cl) as Hd by (unfold deref; by rewrite Hcl).
  assert (roomName ≠ "" → agree s') as Hag'.
  { intros Hne. apply agree_handleCommand; [done|by eexists|by apply names_empty_room_false]. }
  revert Hag'. unfold s'.
  rewrite (handleCommand_create message client s) by (by rewrite ?Hd).
  fold parts roomName. rewrite Hd. cbn [fst snd]. intros Hag'.
  set (s0 := with_rooms s (<[roomName := []]> (rooms s))).
  assert (deref s0 client = cl) as Hd0 by done.
  assert (room_slice s0 roomName = []) as Hm by apply room_slice_insert_eq.
  split_and!.
  - by rewrite deref_enter_room_eq, deref_leave_room, Hd0.
  - rewrite rooms_enter_room, lookup_insert_eq. f_equal.
    rewrite room_slice_leave_room, Hm. by case_decide.
  - intros k Hk. rewrite room_slice_enter_room, decide_False by done.
    rewrite room_slice_leave_room, Hd0.
    assert (room_slice s0 k = room_slice s k) as ->
      by (apply room_slice_insert_ne; congruence).
    done.
  - by rewrite leave_room_events, Hd0.
  - done.
Qed.

Lemma create_makes_a_room_of_one_witness :
  let message := "/create den" in
  let client := 2 in
  let cl := mkClient bob "Anonymous" "lobby" in
  let s := st lobby in
  let parts := Split message space in
  let roomName := nth 1 parts "" in
  let s' := (handleCommand message client s).1 in
  deref s' client = mkClient (conn cl) (username cl) roomName ∧
  rooms s' !! roomName = Some [client] ∧
  (∀ k, k ≠ roomName →
        room_slice s' k
        = if decide (room cl ≠ "" ∧ k = room cl)
          then removeClient (room_slice s k) client else room_slice s k) ∧
  (handleCommand message client s).2
  = (if decide (room cl = "") then []
     else [Send (left_notice (room cl) (username cl))]) ++
    [Write (conn cl) (msg_created roomName) (writable s (conn cl));
     Send (created_notice roomName (username cl))] ∧
  (roomName ≠ "" → agree s').
Proof.
  apply (create_makes_a_room_of_one "/create den" 2 (mkClient bob "Anonymous" "lobby")
           (st lobby)).
  - exact agree_lobby.
  - vm_compute. reflexivity.
  - vm_compute. reflexivity.
  - vm_compute. lia.
  - vm_compute. reflexivity.
  - vm_compute. reflexivity.
Defined.



(** X8: where directory and sessions agree, delivering a message never adds
    anything.  After [handleBroadcast] every session has the room, name
    and connection it had, the ban list is the same, no connection was
    opened and no registry entry added, each room's member list is a
    sublist of what it was, nothing was handed back to the router, and
    directory and sessions still agree. *)
Theorem delivery_only_prunes message s s' evs :
  agree s →
  handleBroadcast message s = Some (s', evs) →
  heap s' = heap s ∧ bannedUsers s' = bannedUsers s ∧ broken s' = broken s ∧
  open s' ⊆ open s ∧
  (∀ c p, clients s' !! c = Some p → clients s !! c = Some p) ∧
  (∀ k, room_slice s' k `sublist_of` room_slice s k) ∧
  sends evs = [] ∧
  agree s'.
Proof.
  intros Hag Hb. pose proof (agree_handleBroadcast message s s' evs Hag Hb) as Hag'.
  revert Hb. unfold handleBroadcast.
  destruct (strip_brackets _) as [r|]; [|done]. cbn. intros [= E].
  pose proof (fanout_preserves shrunk message r shrunk_refl shrunk_trans
                (λ t q, shrunk_pruned r q t) (length (room_slice s r)) 0 (room_slice s r) s) as Hs.
  pose proof (fanout_sends_nothing message r (length (room_slice s r)) 0 (room_slice s r) s) as He.
  rewrite E in Hs, He. cbn [fst snd] in *.
  destruct Hs as (H1 & H2 & H3 & H4 & H5 & H6). by split_and!.
Qed.

Lemma delivery_only_prunes_witness :
  ∃ s' evs,
    handleBroadcast (chat_line "lobby" "3:08PM" "Anonymous" "hi") (st lobby3_alice_gone)
    = Some (s', evs) ∧
    heap s' = heap (st lobby3_alice_gone) ∧
    room_slice s' "lobby" `sublist_of` room_slice (st lobby3_alice_gone) "lobby" ∧
    sends evs = [] ∧
    agree s'.
Proof.
  destruct (handleBroadcast (chat_line "lobby" "3:08PM" "Anonymous" "hi")
              (st lobby3_alice_gone)) as [[s' evs]|] eqn:E.
  - exists s', evs.
    destruct (delivery_only_prunes _ _ _ _ agree_lobby3_alice_gone E)
      as (H1 & _ & _ & _ & _ & H6 & H7 & H8).
    by split_and!.
  - exfalso. revert E. vm_compute. discriminate.
Defined.

(** ** More about kicking and banning *)

Lemma conn_deref_set_room client r s p :
  conn (deref (set_room client r s) p) = conn (deref s p).
Proof.
  destruct (decide (p = client)) as [->|Hne].
  - by rewrite deref_set_room_eq.
  - by rewrite deref_set_room_ne.
Qed.

Lemma conn_deref_kickUser ks c s p :
  conn (deref (kickUser ks c s).1 p) = conn (deref s p).
Proof.
  induction ks as [|k ks IH]; cbn [kickUser]; [done|].
  destruct (find_conn s c (room_slice s k)) as [[i client]|]; [|done].
  cbn [fst]. by rewrite conn_deref_set_room.
Qed.

(** X13: whatever the state and the order of the iteration, [kickUser]
    closes no connection, sends nothing to the router and leaves the
    registry and the ban list alone.  Either it finds nobody and does
    nothing at all, or its one effect is the kicked notice, written to the
    connection it was called with, and a session of that connection has
    its current room cleared. *)
Theorem kick_is_quiet ks c s :
  let s' := (kickUser ks c s).1 in
  let evs := (kickUser ks c s).2 in
  clients s' = clients s ∧ open s' = open s ∧
  bannedUsers s' = bannedUsers s ∧ broken s' = broken s ∧
  sends evs = [] ∧ closed_by evs = [] ∧
  ((s' = s ∧ evs = []) ∨
   (evs = [Write c msg_kicked (writable s c)] ∧
    ∃ client, conn (deref s client) = c ∧ room (deref s' client) = "")).
Proof.
  cbv zeta. destruct (kickUser_frame ks c s) as (Hb & Hc & Ho & Hbr).
  split_and!; try done.
  - clear. induction ks as [|k ks IH]; cbn [kickUser]; [done|].
    by destruct (find_conn s c (room_slice s k)) as [[i client]|].
  - clear. induction ks as [|k ks IH]; cbn [kickUser]; [done|].
    by destruct (find_conn s c (room_slice s k)) as [[i client]|].
  - clear. induction ks as [|k ks IH]; cbn [kickUser]; [by left|].
    destruct (find_conn s c (room_slice s k)) as [[i client]|] eqn:E; [|done].
    right. cbn [fst snd]. apply find_conn_Some in E as (_ & Hconn & _).
    split; [done|]. exists client. split; [done|]. by rewrite deref_set_room_eq.
Qed.

Lemma find_first {A} (f : A → bool) (l : list A) x :
  List.find f l = Some x →
  ∃ before after, l = before ++ x :: after ∧ (∀ y, y ∈ before → f y = false) ∧ f x = true.
Proof.
  induction l as [|a l IH]; cbn [List.find]; [done|].
  destruct (f a) eqn:Ha.
  - intros [= ->]. exists [], l. split_and!; [done| |done].
    intros y Hy. by apply elem_of_nil in Hy.
  - intros (before & after & -> & Hb & Hx)%IH. exists (a :: before), after.
    split_and!; [done| |done].
    intros y [->|Hy]%elem_of_cons; [done|]. by apply Hb.
Qed.

(** X14: the console's [/kick] and [/ban] act on the first connection with
    the given address that the loop over the registry visits, and on that
    one only: with [cs] the order of the visit, the call is [kickUser]
    ([banUser]) on the first connection of [cs] that has the address, no
    connection before it has the address, and after [/ban] the address is
    in the ban list.  If no visited connection has the address, [/ban] and
    [/kick] change nothing, and the address is not put into the ban
    list. *)
Theorem console_acts_on_connected_addresses cs ks ip s :
  (∃ before c after,
     cs = before ++ c :: after ∧
     (∀ c', c' ∈ before → RemoteAddr c' ≠ ip) ∧
     RemoteAddr c = ip ∧
     adminConsole_ban cs ks ip s = banUser ks c s ∧
     adminConsole_kick cs ks ip s = kickUser ks c s ∧
     bannedUsers (adminConsole_ban cs ks ip s).1 !! ip = Some (mkBannedUser ip)) ∨
  ((∀ c, c ∈ cs → RemoteAddr c ≠ ip) ∧
   adminConsole_ban cs ks ip s = (s, []) ∧
   adminConsole_kick cs ks ip s = (s, [])).
Proof.
  unfold adminConsole_ban, adminConsole_kick.
  destruct (List.find (λ c, bool_decide (RemoteAddr c = ip)) cs) as [c|] eqn:E.
  - left. apply find_first in E as (before & after & -> & Hb & Hc).
    apply bool_decide_eq_true_1 in Hc. exists before, c, after.
    split_and!; [done| |done|done|done|].
    + intros c' Hin Heq. specialize (Hb c' Hin). cbn in Hb.
      by rewrite bool_decide_eq_true_2 in Hb.
    + unfold banUser. rewrite (proj1 (kickUser_frame _ _ _)). cbn.
      by rewrite Hc, lookup_insert_eq.
  - right. split; [|done]. intros c Hin Hc.
    pose proof (find_none _ _ E c (proj1 (list_elem_of_In _ _) Hin)) as Hn.
    cbn in Hn. by rewrite bool_decide_eq_true_2 in Hn.
Qed.





(** ** The end of a connection *)

Lemma handleConnection_readerr_unfold client s :
  let c := conn (deref s client) in
  let s1 := (leave_room client s).1 in
  handleConnection_readerr client s
  = (with_open (with_clients s1 (delete c (clients s1))) (open s1 ∖ {[c]}),
     (leave_room client s).2 ++ [Close c]).
Proof. cbv zeta. unfold handleConnection_readerr. by destruct (leave_room client s). Qed.

(** X16: when the read of a session fails and the directory and the
    sessions agree, the handler takes the session out of the registry and
    out of its room, so that it is listed in no room afterwards, and the
    connection is closed; the router gets one leave notice if the session
    had a current room and nothing otherwise (so none after a kick).  No
    other session changes its room or its memberships, and the directory
    and the sessions still agree. *)
Theorem disconnect_cleans_up client cl s :
  let c := conn cl in
  let s' := (handleConnection_readerr client s).1 in
  let evs := (handleConnection_readerr client s).2 in
  agree s →
  heap s !! client = Some cl →
  clients s' !! c = None ∧
  (c ∉ open s') ∧
  (∀ k, client ∉ room_slice s' k) ∧
  (∀ q, q ≠ client →
        deref s' q = deref s q ∧ ∀ k, q ∈ room_slice s' k ↔ q ∈ room_slice s k) ∧
  evs = (if decide (room cl = "") then []
         else [Send (left_notice (room cl) (username cl))]) ++ [Close c] ∧
  agree s'.
Proof.
  intros c s' evs Hag Hcl.
  assert (deref s client = cl) as Hd by (unfold deref; by rewrite Hcl).
  destruct (agree_leave_room client s Hag) as [Hag' Hout].
  unfold s', evs. rewrite handleConnection_readerr_unfold, Hd. fold c. cbn [fst snd].
  set (s1 := (leave_room client s).1) in *.
  split_and!.
  - cbn. apply lookup_delete_eq.
  - cbn. intros [_ Hn]%elem_of_difference. apply Hn. by apply elem_of_singleton.
  - exact Hout.
  - intros q Hq. split; [apply deref_leave_room|]. intros k.
    change (room_slice (with_open _ _) k) with (room_slice s1 k).
    unfold s1. rewrite room_slice_leave_room.
    destruct (decide (room (deref s client) ≠ "" ∧ k = room (deref s client)));
      [by apply elem_of_removeClient_ne|reflexivity].
  - by rewrite leave_room_events, Hd.
  - by eapply agree_frame; [| |exact Hag'].
Qed.

Lemma disconnect_cleans_up_witness :
  let client := 2 in
  let cl := mkClient bob "Anonymous" "lobby" in
  let s := st (play lobby_trace boot) in
  let c := conn cl in
  let s' := (handleConnection_readerr client s).1 in
  let evs := (handleConnection_readerr client s).2 in
  clients s' !! c = None ∧
  (c ∉ open s') ∧
  (∀ k, client ∉ room_slice s' k) ∧
  (∀ q, q ≠ client →
        deref s' q = deref s q ∧ ∀ k, q ∈ room_slice s' k ↔ q ∈ room_slice s k) ∧
  evs = (if decide (room cl = "") then []
         else [Send (left_notice (room cl) (username cl))]) ++ [Close c] ∧
  agree s'.
Proof.
  apply (disconnect_cleans_up 2 (mkClient bob "Anonymous" "lobby")
           (st (play lobby_trace boot))).
  - apply (consistent_play lobby_trace boot consistent_boot); vm_compute; reflexivity.
  - vm_compute. reflexivity.
Defined.

(** ** Handlers that send outside the lock cannot block the router *)

Ltac suffix_cases H :=
  repeat (apply elem_of_cons in H as [H|H]); [..|by apply elem_of_nil in H];
  try discriminate H; try (injection H as -> ->); try (injection H as ->).

Ltac in_suffixes := repeat ((by left) || right).

Lemma sync_ok_start paths :
  Forall sends_outside_lock paths → sync_ok (Sync.start paths).
Proof.
  intros Hall. split_and!; cbn; [|done|done|done].
  intros i rest Hi. rewrite Forall_forall in Hall.
  assert (sends_outside_lock rest) as Hp by (apply Hall; by eapply list_elem_of_lookup_2).
  unfold sends_outside_lock in Hp. split.
  - repeat (apply elem_of_cons in Hp as [->|Hp]); [..|by apply elem_of_nil in Hp];
      unfold Sync.chat_path, Sync.enter_path, Sync.reject_path; in_suffixes.
  - repeat (apply elem_of_cons in Hp as [->|Hp]); [..|by apply elem_of_nil in Hp]; done.
Qed.

Lemma sync_ok_step who s s' : sync_ok s → Sync.step who s = Some s' → sync_ok s'.
Proof.
  intros (Hth & Hown & Hr & Hb). destruct who as [i|]; cbn [Sync.step].
  - unfold Sync.step_thread.
    destruct (Sync.threads s !! i) as [[|op rest]|] eqn:Hi; [done| |done].
    destruct (Hth i _ Hi) as [Hsuf Hmut].
    assert (i < length (Sync.threads s)) as Hlt by (by eapply lookup_lt_Some).
    destruct op.
    + (* Lock *)
      destruct (Sync.mutex s) as [o|] eqn:Hm; [done|]. intros [= <-].
      split_and!; cbn; [| |by rewrite <-Hr|done].
      * intros j rest' [(<- & <- & _)|[Hne Hj]]%list_lookup_insert_Some.
        -- split.
           ++ suffix_cases Hsuf; in_suffixes.
           ++ suffix_cases Hsuf; done.
        -- destruct (Hth j rest' Hj) as [Hs' Hm']. split; [done|].
           split; [intros [= ->]; done|]. intros Hh. apply Hm' in Hh. congruence.
      * intros j [= <-]. by rewrite length_insert.
    + (* Unlock *)
      destruct (decide (Sync.mutex s = Some (Sync.Handler i))) as [Hm|]; [|done].
      intros [= <-].
      split_and!; cbn; [|done| |done].
      * intros j rest' [(<- & <- & _)|[Hne Hj]]%list_lookup_insert_Some.
        -- split.
           ++ suffix_cases Hsuf; in_suffixes.
           ++ suffix_cases Hsuf; done.
        -- destruct (Hth j rest' Hj) as [Hs' Hm']. split; [done|].
           split; [done|]. intros Hh. apply Hm' in Hh. congruence.
      * split; [done|]. intros Hd. apply Hr in Hd. congruence.
    + (* SendMsg *)
      rewrite Hb. destruct (Sync.router s) eqn:Hro; cbn; [|done|done].
      intros [= <-].
      assert (Sync.mutex s ≠ Some Sync.Router) as Hnr.
      { intros Hm. apply Hr in Hm. congruence. }
      split_and!; cbn; [| | |done].
      * intros j rest' [(<- & <- & _)|[Hne Hj]]%list_lookup_insert_Some.
        -- assert (Sync.mutex s ≠ Some (Sync.Handler i)) as Hni.
           { intros Hm. apply Hmut in Hm. done. }
           split.
           ++ suffix_cases Hsuf; in_suffixes.
           ++ suffix_cases Hsuf; done.
        -- by apply Hth.
      * intros j Hj. rewrite length_insert. by apply Hown.
      * done.
  - unfold Sync.step_router. rewrite Hb.
    destruct (Sync.router s) eqn:Hro; [done| |].
    + destruct (Sync.mutex s) as [o|] eqn:Hm; [done|]. intros [= <-].
      split_and!; cbn; [|done|done|done].
      intros j rest' Hj. destruct (Hth j rest' Hj) as [Hs' Hm']. split; [done|].
      split; [done|]. intros Hh. apply Hm' in Hh. congruence.
    + intros [= <-].
      assert (Sync.mutex s = Some Sync.Router) as Hm by (by apply Hr).
      split_and!; cbn; [|done|done|done].
      intros j rest' Hj. destruct (Hth j rest' Hj) as [Hs' Hm']. split; [done|].
      split; [done|]. intros Hh. apply Hm' in Hh. congruence.
Qed.

Lemma sync_ok_run sched s s' : sync_ok s → Sync.run sched s = Some s' → sync_ok s'.
Proof.
  revert s. induction sched as [|who sched IH]; intros s Hs; cbn [Sync.run].
  - by intros [= <-].
  - destruct (Sync.step who s) as [s1|] eqn:E; cbn; [|done].
    apply IH. by eapply sync_ok_step.
Qed.

(** X17: the deadlock needs a send under the lock.  If every handler runs
    a path that sends only outside the lock (a chat line, a [/join] or
    [/create] from outside every room, a refused command), then however
    the goroutines are scheduled somebody can always move, until every
    handler has finished and the router is back at its receive. *)
Theorem sends_outside_lock_never_block paths sched s :
  Forall sends_outside_lock paths →
  Sync.run sched (Sync.start paths) = Some s →
  Sync.stuck s →
  Sync.router s = Sync.Receiving ∧ Forall (λ rest, rest = []) (Sync.threads s).
Proof.
  intros Hpaths Hrun Hstuck.
  destruct (sync_ok_run sched _ s (sync_ok_start paths Hpaths) Hrun)
    as (Hth & Hown & Hr & Hb).
  destruct (Sync.mutex s) as [[i|]|] eqn:Hm.
  - (* a handler holds the lock: it can unlock *)
    exfalso. destruct (lookup_lt_is_Some_2 _ i (Hown i eq_refl)) as [rest Hi].
    destruct (Hth i rest Hi) as [Hsuf Hmut].
    pose proof (proj1 Hmut Hm) as Hhead.
    specialize (Hstuck (Some i)). cbn in Hstuck. unfold Sync.step_thread in Hstuck.
    rewrite Hi in Hstuck. destruct rest as [|[] rest]; try done.
    by rewrite Hm, decide_True in Hstuck.
  - (* the router holds the lock: it can finish *)
    exfalso. specialize (Hstuck None). cbn in Hstuck. unfold Sync.step_router in Hstuck.
    by rewrite (proj1 Hr eq_refl) in Hstuck.
  - assert (Sync.router s = Sync.Receiving) as Hrecv.
    { specialize (Hstuck None). cbn in Hstuck. unfold Sync.step_router in Hstuck.
      destruct (Sync.router s); [done| |done]. by rewrite Hm in Hstuck. }
    split; [done|]. apply Forall_forall. intros rest Hin.
    apply list_elem_of_lookup in Hin as [i Hi].
    destruct (Hth i rest Hi) as [Hsuf Hmut].
    specialize (Hstuck (Some i)). cbn in Hstuck. unfold Sync.step_thread in Hstuck.
    rewrite Hi, Hm, Hrecv, Hb in Hstuck.
    destruct rest as [|[] rest]; try done.
    pose proof (proj2 Hmut eq_refl). congruence.
Qed.

Lemma sends_outside_lock_never_block_witness :
  let s := Sync.mkState None Sync.Receiving 0 [[]; []] 2 2 in
  Sync.router s = Sync.Receiving ∧ Forall (λ rest, rest = []) (Sync.threads s).
Proof.
  apply (sends_outside_lock_never_block
           [Sync.chat_path; Sync.enter_path]
           [Some 0; None; None; Some 1; Some 1; Some 1; None; None]).
  - repeat constructor; unfold sends_outside_lock; in_suffixes.
  - vm_compute. reflexivity.
  - intros [[|[|i]]|]; reflexivity.
Defined.

(** ** Fan-out with one failing member *)

Lemma index_of_app_middle (before after : list ptr) x :
  x ∉ before → index_of (before ++ x :: after) x = Some (length before).
Proof.
  induction before as [|b before IH]; intros Hx; cbn [index_of app length].
  - by rewrite decide_True.
  - rewrite decide_False by (intros ->; apply Hx; left).
    rewrite IH; [done|]. intros ?. apply Hx. by right.
Qed.

Lemma cut_app_middle (before after : list ptr) x :
  cut (length before) (before ++ x :: after) = before ++ after.
Proof.
  induction before as [|b before IH]; [done|].
  unfold cut in *. cbn. by rewrite IH.
Qed.

Lemma drop_app_middle (before after : list ptr) x :
  drop (S (length before)) (before ++ x :: after) = after.
Proof. induction before as [|b before IH]; [done|]. exact IH. Qed.

(** One turn of the loop on a member whose write succeeds. *)
Lemma fanout_step_ok message r n i arr s client :
  arr !! i = Some client →
  writable s (conn (deref s client)) = true →
  fanout message r (S n) i arr s
  = ((fanout message r n (S i) arr s).1,
     Write (conn (deref s client)) message true :: (fanout message r n (S i) arr s).2).
Proof.
  intros Hi Hw. cbn [fanout]. rewrite Hi. cbv zeta. rewrite Hw.
  by destruct (fanout message r n (S i) arr s).
Qed.

(** The loop over a stretch of cells whose writes all succeed. *)
Lemma fanout_prefix message r (before : list ptr) :
  ∀ n i arr s,
    (∀ p, p ∈ before → writable s (conn (deref s p)) = true) →
    (∀ k p, before !! k = Some p → arr !! (i + k) = Some p) →
    fanout message r (length before + n) i arr s
    = ((fanout message r n (i + length before) arr s).1,
       ((λ p, Write (conn (deref s p)) message true) <$> before)
       ++ (fanout message r n (i + length before) arr s).2).
Proof.
  induction before as [|b before IH]; intros n i arr s Hw Harr.
  - cbn. rewrite Nat.add_0_r. by destruct (fanout message r n i arr s).
  - cbn [length Nat.add].
    rewrite (fanout_step_ok message r (length before + n) i arr s b).
    + rewrite (IH n (S i) arr s).
      * cbn. by replace (S (i + length before)) with (i + S (length before)) by lia.
      * intros p Hp. apply Hw. by right.
      * intros k p Hk. replace (S i + k) with (i + S k) by lia. by apply Harr.
    + specialize (Harr 0 b eq_refl). by rewrite Nat.add_0_r in Harr.
    + apply Hw. left.
Qed.

Lemma drop_add_app {A} (before l : list A) k :
  drop (length before + k) (before ++ l) = drop k l.
Proof. induction before as [|b before IH]; [done|]. exact IH. Qed.

Lemma drop_length_final (a : ptr) (l : list ptr) :
  drop (length l) (a :: l) = [final a l].
Proof. revert a. induction l as [|b l IH]; intros a; [done|]. apply IH. Qed.

Lemma final_elem (a : ptr) (l : list ptr) : final a l ∈ a :: l.
Proof.
  revert a. induction l as [|b l IH]; intros a; cbn [final]; [left|]. right. apply IH.
Qed.

Lemma shifted_cells (before after : list ptr) x :
  take (length after)
    (drop (S (length before))
       (cut (length before) (before ++ x :: after)
        ++ drop (length (before ++ x :: after) - 1) (before ++ x :: after)))
  = cells_after_shift after.
Proof.
  rewrite cut_app_middle.
  replace (length (before ++ x :: after) - 1) with (length before + length after)
    by (rewrite List.length_app; cbn; lia).
  rewrite drop_add_app.
  destruct after as [|a rest]; [done|].
  rewrite <-app_assoc. cbn [app].
  rewrite (drop_app_middle before (rest ++ drop (length (a :: rest)) (x :: a :: rest)) a).
  cbn [length drop]. rewrite drop_length_final.
  cbn [cells_after_shift]. apply take_ge. rewrite List.length_app. cbn. lia.
Qed.

Lemma elem_of_cells_after_shift after p : p ∈ cells_after_shift after → p ∈ after.
Proof.
  destruct after as [|a rest]; [done|]. cbn [cells_after_shift].
  intros [Hp|Hp%list_elem_of_singleton]%elem_of_app.
  - by right.
  - subst p. apply final_elem.
Qed.

Lemma writable_pruned r x s c :
  writable s c = true → c ≠ conn (deref s x) → writable (pruned r x s) c = true.
Proof.
  unfold writable, pruned. cbn. intros [Ho Hb]%andb_true_iff Hne.
  apply andb_true_iff. split; [|done].
  apply bool_decide_eq_true_2. apply bool_decide_eq_true_1 in Ho.
  apply elem_of_difference. split; [done|]. by intros ?%elem_of_singleton.
Qed.

(** The turn of the loop on a member whose write fails. *)
Lemma fanout_step_fail message r n i arr s x :
  arr !! i = Some x →
  writable s (conn (deref s x)) = false →
  fanout message r (S n) i arr s
  = ((fanout message r n (S i)
        (match index_of (room_slice s r) x with
         | Some j => cut j (room_slice s r) ++ drop (length (room_slice s r) - 1) arr
         | None => arr
         end) (pruned r x s)).1,
     Write (conn (deref s x)) message false :: Close (conn (deref s x)) ::
     (fanout message r n (S i)
        (match index_of (room_slice s r) x with
         | Some j => cut j (room_slice s r) ++ drop (length (room_slice s r) - 1) arr
         | None => arr
         end) (pruned r x s)).2).
Proof.
  intros Hi Hw. cbn [fanout]. rewrite Hi. cbv zeta. rewrite Hw.
  unfold pruned. cbv zeta.
  change (room_slice (with_clients (with_open s (open s ∖ {[conn (deref s x)]}))
            (delete (conn (deref s x))
               (clients (with_open s (open s ∖ {[conn (deref s x)]}))))) r)
    with (room_slice s r).
  by destruct (fanout message r n (S i) _ _).
Qed.

(** X18: what exactly happens when one member cannot be written to, where
    directory and sessions agree.  Let a room list [before], then [x],
    then [after]; the write to [x] fails and the writes to all others
    succeed.  Then the router writes the line to every member in
    [before], in order; fails on [x], closes its connection and takes it
    out of the registry and of the room; and goes on with the members in
    [after] except the first, followed once more by the last of them.  The
    state afterwards is the one before with [x] pruned: the room lists
    [before] and [after], the connection of [x] has no registry entry, and
    directory and sessions still agree. *)
Theorem one_failure_skips_and_repeats message r rest before x after s :
  agree s →
  message = "[" +:+ r +:+ "] " +:+ rest →
  no_space r = true →
  rooms s !! r = Some (before ++ x :: after) →
  writable s (conn (deref s x)) = false →
  (∀ p, p ∈ before ++ after → writable s (conn (deref s p)) = true) →
  handleBroadcast message s
  = Some (pruned r x s,
          ((λ p, Write (conn (deref s p)) message true) <$> before)
          ++ [Write (conn (deref s x)) message false; Close (conn (deref s x))]
          ++ ((λ p, Write (conn (deref s p)) message true) <$> cells_after_shift after))
  ∧ room_slice (pruned r x s) r = before ++ after
  ∧ clients (pruned r x s) !! conn (deref s x) = None
  ∧ agree (pruned r x s).
Proof.
  intros Hag Hmsg Hr Hroom Hx Hothers.
  assert (NoDup (before ++ x :: after)) as Hnd.
  { destruct Hag as (_ & _ & HC & _). by apply (HC r). }
  assert (x ∉ before) as Hxb.
  { apply NoDup_app in Hnd as (_ & Hd & _). intros Hin. apply (Hd x Hin). left. }
  assert (room_slice s r = before ++ x :: after) as Hslice
    by exact (room_slice_Some s r _ Hroom).
  split; [|split; [|split]].
  2:{ unfold pruned. cbv zeta. rewrite room_slice_insert_eq.
      change (room_slice (with_clients _ _) r) with (room_slice s r).
      rewrite Hslice. unfold removeClient.
      by rewrite (index_of_app_middle before after x Hxb), cut_app_middle. }
  2:{ unfold pruned. cbn. apply lookup_delete_eq. }
  2:{ apply agree_pruned; [done|by eexists]. }
  unfold handleBroadcast. rewrite Hmsg, room_of_line by done. rewrite <-Hmsg. cbn.
  rewrite Hslice.
  replace (length (before ++ x :: after)) with (length before + S (length after))
    by (rewrite List.length_app; done).
  rewrite (fanout_prefix message r before (S (length after)) 0 (before ++ x :: after) s).
  2:{ intros p Hp. apply Hothers. apply elem_of_app. by left. }
  2:{ intros k p Hk. cbn. by apply lookup_app_l_Some. }
  cbn [Nat.add].
  rewrite (fanout_step_fail message r (length after) (length before) _ s x);
    [|by rewrite list_lookup_middle|done].
  rewrite Hslice, (index_of_app_middle before after x Hxb).
  rewrite fanout_all_writable.
  - rewrite shifted_cells. cbn [fst snd]. do 2 f_equal.
  - rewrite shifted_cells. intros p Hp%elem_of_cells_after_shift.
    assert (writable s (conn (deref s p)) = true) as Hw.
    { apply Hothers. apply elem_of_app. by right. }
    change (deref (pruned r x s) p) with (deref s p).
    apply (writable_pruned r x s); [done|].
    intros Heq. rewrite Heq, Hx in Hw. discriminate.
Qed.

(** In the lobby of Alice, Bob, Carol and Dave, with Bob's peer gone, the
    line goes to Alice, fails on Bob, and then goes to Dave twice: Carol,
    the member after Bob, is skipped. *)
Lemma one_failure_skips_and_repeats_witness :
  let s := st lobby4_bob_gone in
  let line := chat_line "lobby" "3:08PM" "Anonymous" "hi" in
  cells_after_shift [3; 4] = [4; 4] ∧
  (handleBroadcast line s
   = Some (pruned "lobby" 2 s,
           ((λ p, Write (conn (deref s p)) line true) <$> [1])
           ++ [Write (conn (deref s 2)) line false; Close (conn (deref s 2))]
           ++ ((λ p, Write (conn (deref s p)) line true) <$> cells_after_shift [3; 4]))
   ∧ room_slice (pruned "lobby" 2 s) "lobby" = [1] ++ [3; 4]
   ∧ clients (pruned "lobby" 2 s) !! conn (deref s 2) = None
   ∧ agree (pruned "lobby" 2 s)).
Proof.
  cbv zeta. split; [reflexivity|].
  apply (one_failure_skips_and_repeats
           (chat_line "lobby" "3:08PM" "Anonymous" "hi") "lobby"
           ("3:08PM" +:+ " - " +:+ "Anonymous" +:+ ": " +:+ "hi" +:+ nl)
           [1] 2 [3; 4] (st lobby4_bob_gone)).
  - exact agree_lobby4_bob_gone.
  - reflexivity.
  - vm_compute. reflexivity.
  - vm_compute. reflexivity.
  - vm_compute. reflexivity.
  - intros p Hp. cbn in Hp.
    apply elem_of_cons in Hp as [->|Hp]; [vm_compute; reflexivity|].
    apply elem_of_cons in Hp as [->|Hp]; [vm_compute; reflexivity|].
    apply elem_of_cons in Hp as [->|Hp]; [vm_compute; reflexivity|].
    by apply elem_of_nil in Hp.
Defined.

(** ** Display names *)

Lemma anonymous_set_room p r s :
  anonymous s → is_Some (heap s !! p) → anonymous (set_room p r s).
Proof.
  intros Ha [cl Hcl] q cq. unfold set_room. cbn.
  intros [[<- <-]|[_ Hq]]%lookup_insert_Some.
  - cbn. unfold deref. rewrite Hcl. cbn. by apply (Ha p cl).
  - by apply (Ha q cq).
Qed.

Lemma housed_leave_room client s : housed s → housed (leave_room client s).1.
Proof.
  intros Hh k q. rewrite room_slice_leave_room, heap_leave_room.
  case_decide; [|by apply Hh].
  intros Hq. apply (Hh k). by eapply elem_of_sublist; [|apply removeClient_sublist].
Qed.

Lemma housed_enter_room client r s :
  housed s → is_Some (heap s !! client) → housed (enter_room client r s).
Proof.
  intros Hh Hc k q. rewrite room_slice_enter_room.
  change (heap (enter_room client r s))
    with (<[client := mkClient (conn (deref s client)) (username (deref s client)) r]> (heap s)).
  intros Hq. apply lookup_insert_is_Some'.
  case_decide.
  - apply elem_of_app in Hq as [Hq|Hq].
    + right. by apply (Hh r).
    + left. apply elem_of_cons in Hq as [->|Hq]; [done|]. by apply elem_of_nil in Hq.
  - right. by apply (Hh k).
Qed.

Lemma named_moved client r s :
  anonymous s → housed s → is_Some (heap s !! client) →
  anonymous (enter_room client r (leave_room client s).1) ∧
  housed (enter_room client r (leave_room client s).1).
Proof.
  intros Ha Hh Hc.
  assert (is_Some (heap (leave_room client s).1 !! client)) as Hc'
    by (by rewrite heap_leave_room).
  split.
  - apply (anonymous_set_room client r (leave_room client s).1); [|done].
    intros p cl. rewrite heap_leave_room. apply Ha.
  - apply housed_enter_room; [|done]. by apply housed_leave_room.
Qed.

Lemma named_handleCommand message client s :
  anonymous s → housed s → is_Some (heap s !! client) →
  anonymous (handleCommand message client s).1 ∧ housed (handleCommand message client s).1.
Proof.
  intros Ha Hh Hc.
  destruct (handleCommand_shape message client s) as [[reply E]|[[_ E]|[_ E]]];
    rewrite E; cbn [fst]; [done| |].
  - by apply named_moved.
  - apply named_moved; [done| |done].
    intros k q Hq. cbn. apply (Hh k).
    destruct (decide (k = nth 1 (Split message space) "")) as [->|Hne].
    + rewrite room_slice_insert_eq in Hq. by apply elem_of_nil in Hq.
    + by rewrite room_slice_insert_ne in Hq.
Qed.

Lemma named_kickUser ks c s :
  anonymous s → housed s →
  anonymous (kickUser ks c s).1 ∧ housed (kickUser ks c s).1.
Proof.
  intros Ha Hh. induction ks as [|k ks IH]; cbn [kickUser]; [done|].
  destruct (find_conn s c (room_slice s k)) as [[i client]|] eqn:E; [|done].
  apply find_conn_Some in E as (Hi & _ & _). cbn [fst].
  assert (is_Some (heap s !! client)) as Hc.
  { apply (Hh k). by eapply list_elem_of_lookup_2. }
  match goal with |- context [set_room client "" ?t] => set (s1 := t) end.
  assert (housed s1) as Hh1.
  { intros k' q Hq. change (heap s1) with (heap s).
    assert (∀ j, q ∈ cut j (room_slice s k) → q ∈ room_slice s k) as Hcut
      by (intros j Hj; by eapply elem_of_sublist; [|apply cut_sublist]).
    destruct (decide (room (deref s client) = k')) as [<-|Hne1].
    - unfold s1, room_slice in Hq. cbn in Hq.
      rewrite lookup_insert_eq in Hq. cbn in Hq.
      apply (Hh k). by apply (Hcut i).
    - unfold s1, room_slice in Hq. cbn in Hq.
      rewrite lookup_insert_ne in Hq by done.
      destruct (decide (k = k')) as [<-|Hne2].
      + rewrite lookup_insert_eq in Hq. cbn in Hq.
        apply (Hh k). apply elem_of_app in Hq as [Hq|Hq]; [by apply (Hcut i)|].
        by eapply elem_of_sublist; [|apply sublist_drop].
      + rewrite lookup_insert_ne in Hq by done. by apply (Hh k'). }
  split.
  - apply anonymous_set_room; [exact Ha|exact Hc].
  - intros k' q Hq. cbn. apply lookup_insert_is_Some'. right. by apply (Hh1 k').
Qed.

Lemma named_do a σ : ready a σ → named σ → named (do a σ).
Proof.
  intros Hready (Ha & Hh & Hl).
  destruct a as [c|c client|now message client|client|i|cs ks ip|cs ks ip|c];
    cbn [do ready] in *.
  - by split_and!.
  - unfold handleConnection_start. cbn.
    assert (∀ p cl, <[client := mkClient c "Anonymous" ""]> (heap (st σ)) !! p = Some cl →
                    username cl = "Anonymous") as Ha'.
    { intros p cl [[<- <-]|[_ Hp]]%lookup_insert_Some; [done|]. by apply (Ha p cl). }
    destruct (bannedUsers (st σ) !! RemoteAddr c); cbn; split_and!; try exact Ha'.
    + intros k q Hq. apply lookup_insert_is_Some'. right. by apply (Hh k).
    + intros p Hp. apply lookup_insert_is_Some'. right. by apply Hl.
    + intros k q Hq. apply lookup_insert_is_Some'. right. by apply (Hh k).
    + intros p [->%elem_of_singleton|Hp]%elem_of_union; apply lookup_insert_is_Some'.
      * by left.
      * right. by apply Hl.
  - destruct Hready as [Hin _].
    assert (anonymous (handleConnection_line now message client (st σ)).1 ∧
            housed (handleConnection_line now message client (st σ)).1) as [Ha' Hh'].
    { unfold handleConnection_line. destruct (HasPrefix message "/").
      - apply named_handleCommand; [done|done|by apply Hl].
      - by case_decide. }
    pose proof (λ p, heap_grows_handleConnection_line now message client (st σ) p) as Hg.
    destruct (handleConnection_line now message client (st σ)) as [s' evs].
    split_and!; [done|done|]. intros p Hp. cbn. apply Hg. by apply Hl.
  - pose proof (handleConnection_readerr_fields client (st σ)) as (_ & _ & _ & _ & Hheap).
    assert (housed (handleConnection_readerr client (st σ)).1) as Hh'.
    { intros k q Hq. rewrite Hheap.
      pose proof (housed_leave_room client (st σ) Hh k q) as Hq'.
      rewrite heap_leave_room in Hq'. apply Hq'.
      revert Hq. unfold handleConnection_readerr.
      by destruct (leave_room client (st σ)) as [s1 notice]. }
    destruct (handleConnection_readerr client (st σ)) as [s' evs]. cbn [fst st] in *.
    split_and!; cbn.
    + intros p cl. rewrite Hheap. apply Ha.
    + done.
    + rewrite Hheap. intros p [Hp _]%elem_of_difference. by apply Hl.
  - destruct (pending σ !! i) as [message|]; cbn; [|done].
    destruct (handleBroadcast message (st σ)) as [[s' evs]|] eqn:E; [|done].
    assert (shrunk (st σ) s') as (Hheap & _ & _ & _ & _ & Hsub).
    { revert E. unfold handleBroadcast.
      destruct (strip_brackets _) as [r|]; [|done]. cbn. intros [= E].
      pose proof (fanout_preserves shrunk message r shrunk_refl shrunk_trans
                    (λ t q, shrunk_pruned r q t) (length (room_slice (st σ) r)) 0
                    (room_slice (st σ) r) (st σ)) as Hs.
      by rewrite E in Hs. }
    split_and!; cbn.
    + intros p cl. rewrite Hheap. apply Ha.
    + intros k q Hq. rewrite Hheap. apply (Hh k). by eapply elem_of_sublist; [|apply Hsub].
    + intros p Hp. rewrite Hheap. by apply Hl.
  - unfold adminConsole_kick. destruct (List.find _ cs); [|done].
    destruct (named_kickUser ks c (st σ) Ha Hh) as [Ha' Hh'].
    split_and!; cbn [st handlers]; [done|done|].
    intros p Hp. apply heap_grows_kickUser. by apply Hl.
  - unfold adminConsole_ban, banUser. destruct (List.find _ cs); [|done].
    match goal with |- context [kickUser ks c ?t] => set (s1 := t) end.
    destruct (named_kickUser ks c s1 Ha Hh) as [Ha' Hh'].
    split_and!; cbn [st handlers]; [done|done|].
    intros p Hp. apply heap_grows_kickUser. by apply Hl.
  - done.
Qed.

Lemma reachable_named σ : reachable σ → named σ.
Proof.
  induction 1 as [|σ a σ' _ IH [Hready ->]].
  - split_and!.
    + intros p cl Hp. cbn in Hp. by rewrite lookup_empty in Hp.
    + intros k q Hq. cbn in Hq. unfold room_slice in Hq. cbn in Hq.
      rewrite lookup_empty in Hq. by apply elem_of_nil in Hq.
    + intros p Hp. cbn in Hp. by apply elem_of_empty in Hp.
  - by apply named_do.
Qed.

(** X19: nobody ever gets a name.  In every state the server can reach,
    every session has the display name [Anonymous] it was created with:
    no command and no console action changes it.  So every chat line a
    session hands to the router is signed [Anonymous], whoever sent it. *)
Theorem display_names_never_change σ now message client :
  reachable σ → client ∈ handlers σ →
  username (deref (st σ) client) = "Anonymous" ∧
  (HasPrefix message "/" = false → room (deref (st σ) client) ≠ "" →
   (handleConnection_line now message client (st σ)).2
   = [Send (chat_line (room (deref (st σ) client)) now "Anonymous" message)]).
Proof.
  intros Hr Hin. destruct (reachable_named σ Hr) as (Ha & _ & Hl).
  destruct (Hl client Hin) as [cl Hcl].
  assert (username (deref (st σ) client) = "Anonymous") as Hu.
  { unfold deref. rewrite Hcl. cbn. by apply (Ha client cl). }
  split; [done|]. intros Hp Hroom.
  unfold handleConnection_line. rewrite Hp. case_decide; [done|].
  cbn. by rewrite Hu.
Qed.

Lemma display_names_never_change_witness :
  username (deref (st lobby) 2) = "Anonymous" ∧
  (HasPrefix "hi" "/" = false → room (deref (st lobby) 2) ≠ "" →
   (handleConnection_line "3:07PM" "hi" 2 (st lobby)).2
   = [Send (chat_line (room (deref (st lobby) 2)) "3:07PM" "Anonymous" "hi")]).
Proof.
  apply (display_names_never_change lobby "3:07PM" "hi" 2 lobby_reachable).
  by_evaluation.
Defined.

(** ** The registry and the sessions that are served *)

Lemma conn_deref_handleConnection_line now message client s p :
  conn (deref (handleConnection_line now message client s).1 p) = conn (deref s p).
Proof.
  unfold handleConnection_line.
  destruct (HasPrefix message "/"); [|by case_decide].
  destruct (handleCommand_shape message client s) as [[reply E]|[[_ E]|[_ E]]];
    rewrite E; cbn [fst]; [done| |].
  - unfold enter_room.
    change (deref (with_rooms ?t _) p) with (deref t p).
    by rewrite conn_deref_set_room, deref_leave_room.
  - unfold enter_room.
    change (deref (with_rooms ?t _) p) with (deref t p).
    by rewrite conn_deref_set_room, deref_leave_room.
Qed.

Lemma served_fanout H message r n i arr s :
  served H s → served H (fanout message r n i arr s).1.
Proof.
  intros Hs.
  cut (heap (fanout message r n i arr s).1 = heap s ∧
       (served H s → served H (fanout message r n i arr s).1)); [intros [_ Hf]; by apply Hf|].
  apply (fanout_preserves (λ s s', heap s' = heap s ∧ (served H s → served H s')) message r).
  - done.
  - intros s1 s2 s3 [H1 F1] [H2 F2]. split; [congruence|auto].
  - clear. intros s client. split; [done|]. intros Hs p Hp. unfold pruned. cbn.
    change (deref (mkState _ _ _ (heap s) _ _) p) with (deref s p).
    intros [Hin Hne]%elem_of_difference.
    rewrite lookup_delete_ne; [by apply Hs|].
    intros Heq. apply Hne, elem_of_singleton. congruence.
Qed.

Lemma served_do a σ :
  ready a σ → named σ → served (handlers σ) (st σ) →
  served (handlers (do a σ)) (st (do a σ)).
Proof.
  intros Hready (_ & _ & Hl) Hs.
  destruct a as [c|c client|now message client|client|i|cs ks ip|cs ks ip|c];
    cbn [do ready] in *.
  - destruct Hready as (_ & _ & Hfresh). intros p Hp. cbn.
    change (deref (accept c (st σ)) p) with (deref (st σ) p).
    destruct (Hl p Hp) as [cp Hcp].
    assert (deref (st σ) p = cp) as Hd by (unfold deref; by rewrite Hcp).
    intros [Hc%elem_of_singleton|Ho]%elem_of_union; [|by apply Hs].
    exfalso. apply (Hfresh p cp Hcp). congruence.
  - destruct Hready as (_ & Hfresh & Hnew).
    assert (∀ p, p ∈ handlers σ →
                 p ≠ client ∧ conn (deref (st σ) p) ≠ c) as Hold.
    { intros p Hp. destruct (Hl p Hp) as [cp Hcp].
      assert (deref (st σ) p = cp) as Hd by (unfold deref; by rewrite Hcp).
      split; [intros ->; congruence|]. rewrite Hd. by apply (Hfresh p cp). }
    unfold handleConnection_start. cbn.
    destruct (bannedUsers (st σ) !! RemoteAddr c); cbn; intros p Hp; unfold deref; cbn.
    + destruct (Hold p Hp) as [Hne Hc]. rewrite lookup_insert_ne by done.
      fold (deref (st σ) p). intros [Ho _]%elem_of_difference.
      rewrite lookup_insert_ne by done. by apply Hs.
    + apply elem_of_union in Hp as [->%elem_of_singleton|Hp].
      * rewrite lookup_insert_eq. cbn. intros _. by rewrite lookup_insert_eq.
      * destruct (Hold p Hp) as [Hne Hc]. rewrite lookup_insert_ne by done.
        fold (deref (st σ) p). intros Ho.
        rewrite lookup_insert_ne by done. by apply Hs.
  - pose proof (handleConnection_line_fields now message client (st σ)) as (Hc & _ & Ho & _).
    pose proof (conn_deref_handleConnection_line now message client (st σ)) as Hd.
    destruct (handleConnection_line now message client (st σ)) as [s' evs].
    cbn [fst st handlers] in *. intros p Hp. rewrite Hd, Hc, Ho. by apply Hs.
  - pose proof (handleConnection_readerr_fields client (st σ)) as (Hc & Ho & _ & _ & Hh).
    destruct (handleConnection_readerr client (st σ)) as [s' evs].
    cbn [fst st handlers] in *. intros p [Hp _]%elem_of_difference.
    assert (deref s' p = deref (st σ) p) as -> by (unfold deref; by rewrite Hh).
    rewrite Hc, Ho. intros [Hin Hne]%elem_of_difference.
    rewrite lookup_delete_ne; [by apply Hs|].
    intros Heq. apply Hne, elem_of_singleton. congruence.
  - destruct (pending σ !! i) as [message|]; cbn; [|done].
    unfold handleBroadcast. destruct (strip_brackets _) as [r|]; cbn; [|done].
    pose proof (served_fanout (handlers σ) message r (length (room_slice (st σ) r)) 0
                  (room_slice (st σ) r) (st σ) Hs) as H.
    by destruct (fanout message r _ 0 _ (st σ)).
  - cbn [st handlers]. unfold adminConsole_kick. destruct (List.find _ cs) as [c|]; [|done].
    destruct (kickUser_frame ks c (st σ)) as (_ & Hc & Ho & _).
    intros p Hp. rewrite conn_deref_kickUser, Hc, Ho. by apply Hs.
  - cbn [st handlers]. unfold adminConsole_ban, banUser.
    destruct (List.find _ cs) as [c|]; [|done].
    match goal with |- context [kickUser ks c ?t] =>
      destruct (kickUser_frame ks c t) as (_ & Hc & Ho & _) end.
    intros p Hp. rewrite conn_deref_kickUser, Hc, Ho. by apply Hs.
  - done.
Qed.

Lemma reachable_served σ : reachable σ → served (handlers σ) (st σ).
Proof.
  induction 1 as [|σ a σ' Hreach IH [Hready ->]].
  - intros p Hp. by apply elem_of_empty in Hp.
  - apply served_do; [done|by apply reachable_named|done].
Qed.

(** X9: in every state the server can reach, a session whose handler is in
    its read loop and whose connection is open is in the registry, under
    its connection.  (A connection that was accepted and whose handler has
    not registered it yet is open and not in the registry; one that was
    refused stays in the registry after it is closed.) *)
Theorem served_sessions_are_registered σ client :
  reachable σ → client ∈ handlers σ →
  conn (deref (st σ) client) ∈ open (st σ) →
  clients (st σ) !! conn (deref (st σ) client) = Some client.
Proof. intros Hr Hin Ho. by apply (reachable_served σ Hr). Qed.

Lemma served_sessions_are_registered_witness :
  clients (st lobby3_alice_gone) !! conn (deref (st lobby3_alice_gone) 2) = Some 2.
Proof.
  apply (served_sessions_are_registered lobby3_alice_gone 2 lobby3_alice_gone_reachable).
  - by_evaluation.
  - by_evaluation.
Defined.

(** Between [Accept] and the registration by its handler a connection is
    open and not in the registry. *)
Lemma accepted_connection_is_not_registered :
  let σ := do (Accept dave) lobby in
  reachable σ ∧ dave ∈ open (st σ) ∧ clients (st σ) !! dave = None.
Proof.
  cbv zeta. split_and!.
  - eapply reachable_step; [exact lobby_reachable|]. split; [|done]. by_evaluation.
  - by_evaluation.
  - vm_compute. reflexivity.
Qed.
